(** * yolo-serving-template: a shallow embedding of the serving shim

    The development follows the repository's modules:

    - [Http]        client/http.py           (YoloHTTPClient: retry / backoff loop)
    - [Postprocess] app/utils/postprocess.py (format_detections)
    - [Model]       app/model.py             (BaseModel, StubModel)
    - [Loader]      app/loader.py            (YolovXAdapter, get_model)
    - [Main]        app/main.py              (the /predict upload handler)
    - [Core]        app/core.py, client/inproc.py (the in-process bridge)
    - [Cli]         client/cli.py            (the predict command)

    Part I holds the definitions, Part II the properties.

    Conventions.  Python integers are [Z].  The floats of a detection are
    only copied: they are rationals or one of the three non-finite values
    ([float]).  The backoff factor is a finite float, a rational [Q]; its
    product with a power of two is exact as long as it is finite, which the
    theorems that need it assume ([finite_wait]).  Strings are byte strings.
    A Python call that may raise returns a [result]; effects on the outside
    world (HTTP posts, sleeps, file operations, printed lines) are recorded
    next to the state they change.  What the operating system and the
    libraries outside the repository decide (whether a file opens, a
    directory can be made, a sleep length is accepted, an image verifies)
    is a parameter of the world a function runs in.  Nothing else touches
    the upload directory while a request runs.  The records the code hands
    to the [logging] module are not part of the model. *)

From Stdlib Require Import ZArith QArith Lia.
From Stdlib.Strings Require Import Byte.
From stdpp Require Import base option list gmap strings pretty.

Set Warnings "-register-all".

Local Open Scope Z_scope.

(* ===================================================================== *)
(** * Part I: definitions *)
(* ===================================================================== *)

(** ** Python values, exceptions and results *)

(** A Python float as the detection code handles it: a finite number, or
    one of nan, inf and -inf. *)
Inductive float :=
| Finite (q : Q)
| NaN
| Infinity
| NegInfinity.

Coercion Finite : Q >-> float.

(** A list of finite floats. *)
Definition floats (l : list Q) : list float := Finite <$> l.

(** The JSON-like values the code builds and returns.  A [VDict] keeps the
    insertion order of a Python dict literal. *)
Inductive value :=
| VNone
| VBool (b : bool)
| VInt (n : Z)
| VFloat (x : float)
| VStr (s : string)
| VList (items : list value)
| VDict (fields : list (string * value)).

(** [d[key]] / [d.get(key)] on a dict value. *)
Fixpoint assoc (key : string) (fields : list (string * value)) : option value :=
  match fields with
  | [] => None
  | (k, v) :: rest => if String.eqb k key then Some v else assoc key rest
  end.

Definition dict_get (key : string) (d : value) : option value :=
  match d with
  | VDict fields => assoc key fields
  | _ => None
  end.

Definition dict_keys (d : value) : list string :=
  match d with
  | VDict fields => fst <$> fields
  | _ => []
  end.

(** [json.dumps(..., allow_nan=False)] accepts a value that holds no
    non-finite float. *)
Fixpoint json_compliant (v : value) : bool :=
  match v with
  | VFloat (Finite _) => true
  | VFloat _ => false
  | VList items => forallb json_compliant items
  | VDict fields =>
      forallb (λ field, match field with (_, v) => json_compliant v end) fields
  | _ => true
  end.

(** The exceptions that occur in the modelled code. *)
Inductive exn :=
| FileNotFoundError (path : string)          (* raise FileNotFoundError(path) *)
| RequestError (msg : string)                (* httpx.RequestError *)
| HTTPStatusError (msg : string) (status : Z) (* httpx.HTTPStatusError *)
| JSONDecodeError
| TypeError (msg : string)
| IndexError (msg : string)
| OSError (msg : string)                     (* an error of the operating system *)
| ValueError (msg : string)
| OverflowError (msg : string)
| RuntimeError (msg : string)
| Exception (msg : string).                  (* any other [Exception] *)

(** [str(e)] where the code formats an exception. *)
Definition exn_str (e : exn) : string :=
  match e with
  | FileNotFoundError p => p
  | RequestError m | HTTPStatusError m _ | TypeError m | IndexError m
  | OSError m | ValueError m | OverflowError m | RuntimeError m | Exception m => m
  | JSONDecodeError => "Expecting value"
  end.

Inductive result (A : Type) :=
| Returned (a : A)
| Raised (e : exn).
Arguments Returned {A} a.
Arguments Raised {A} e.

(** Sequencing of calls that may raise: the first exception propagates. *)
#[export] Instance result_ret : MRet result := λ A a, Returned a.
#[export] Instance result_bind : MBind result := λ A B f m,
  match m with
  | Returned a => f a
  | Raised e => Raised e
  end.

(** [try: ... except Exception: handler]. *)
Definition try_except {A : Type} (body : result A) (handler : exn → A) : A :=
  match body with
  | Returned a => a
  | Raised e => handler e
  end.

(** ** Strings *)

(** [str.lower] on the ASCII letters. *)
Definition lower_ascii (c : Ascii.ascii) : Ascii.ascii :=
  let n := Ascii.N_of_ascii c in
  if ((65 <=? n) && (n <=? 90))%N then Ascii.ascii_of_N (n + 32) else c.

Fixpoint lower (s : string) : string :=
  match s with
  | EmptyString => EmptyString
  | String c rest => String (lower_ascii c) (lower rest)
  end.

(** [s.startswith(p)] and [sub in s]. *)
Definition startswith (s p : string) : bool := String.prefix p s.

Fixpoint contains (sub s : string) : bool :=
  String.prefix sub s ||
  match s with
  | EmptyString => false
  | String _ rest => contains sub rest
  end.

(** Truthiness of an [Optional[str]]: neither [None] nor empty. *)
Definition truthy (s : option string) : bool :=
  match s with
  | Some (String _ _) => true
  | _ => false
  end.

(** pathlib, as far as the code uses it. *)
Class Pathlib := {
  Path_str : string → string;               (* str(Path(s)) *)
  Path_name : string → string;              (* Path(s).name *)
  Path_joinpath : string → string → string  (* str(Path(a) / b) *)
}.

(** [PurePosixPath]: a path is a root ("", "/" or "//") and the components
    between slashes, empty ones and "." dropped. *)
Definition slash : Ascii.ascii := Ascii.ascii_of_nat 47.

Fixpoint split_slash (cur : string) (s : string) : list string :=
  match s with
  | EmptyString => [cur]
  | String c rest =>
      if Ascii.eqb c slash then cur :: split_slash EmptyString rest
      else split_slash (cur +:+ String c EmptyString) rest
  end.

Definition posix_parts (s : string) : list string :=
  List.filter (λ part, negb (String.eqb part "" || String.eqb part ".")) (split_slash "" s).

(** Exactly two leading slashes are kept; three or more are one. *)
Definition posix_root (s : string) : string :=
  match s with
  | String a (String b (String c _)) =>
      if Ascii.eqb a slash
      then if Ascii.eqb b slash && negb (Ascii.eqb c slash) then "//" else "/"
      else ""
  | String a (String b EmptyString) =>
      if Ascii.eqb a slash then if Ascii.eqb b slash then "//" else "/" else ""
  | String a EmptyString => if Ascii.eqb a slash then "/" else ""
  | EmptyString => ""
  end.

Fixpoint join_slash (parts : list string) : string :=
  match parts with
  | [] => ""
  | [part] => part
  | part :: parts' => part +:+ "/" +:+ join_slash parts'
  end.

Definition posix_format (root : string) (parts : list string) : string :=
  match root, parts with
  | EmptyString, [] => "."
  | _, _ => root +:+ join_slash parts
  end.

Definition posix_paths : Pathlib :=
  {| Path_str := λ s, posix_format (posix_root s) (posix_parts s);
     Path_name := λ s, default "" (last (posix_parts s));
     Path_joinpath := λ a b,
       if String.eqb (posix_root b) ""
       then posix_format (posix_root a) (posix_parts a ++ posix_parts b)
       else posix_format (posix_root b) (posix_parts b) |}.

(** [range(start, stop)]. *)
Definition py_range (start stop : Z) : list Z := seqZ start (stop - start).

(* --------------------------------------------------------------------- *)
(** ** client/http.py *)
(* --------------------------------------------------------------------- *)

Module Http.

(** What the client reads of an [httpx.Response]. *)
Record Response := {
  status_code : Z;
  json : result value;          (* r.json(): the parsed body, or it raises *)
  status_message : string       (* the message of the error raise_for_status builds *)
}.

(** [Response.raise_for_status]: an [HTTPStatusError] for every status
    outside 200..299.  Its message is built from the status, the reason
    phrase and the URL, and is taken from the response. *)
Definition raise_for_status (r : Response) : option exn :=
  if (200 <=? status_code r) && (status_code r <? 300)
  then None
  else Some (HTTPStatusError (status_message r) (status_code r)).

(** The fields of the client that the attempt loop reads.  [base_url],
    [api_key], [timeout] and [_headers] only parametrise the transport,
    which is the [post] function of the [world] below. *)
Record YoloHTTPClient := {
  retries : Z;
  backoff_factor : Q;
  retry_statuses : gset Z
}.

Definition DEFAULT_RETRY_STATUSES : gset Z := {[ 429; 500; 502; 503; 504 ]}.

(** [YoloHTTPClient.__init__]. *)
Definition init (retries_arg : Z) (backoff_arg : Q)
    (retry_statuses_arg : option (gset Z)) : YoloHTTPClient :=
  {| retries := Z.max 1 retries_arg;
     backoff_factor := backoff_arg;
     retry_statuses :=
       match retry_statuses_arg with
       | None => DEFAULT_RETRY_STATUSES
       | Some s => s
       end |}.

(** The number [backoff_factor * (2 ** (attempt - 1))]. *)
Definition backoff_value (c : YoloHTTPClient) (attempt : Z) : Q :=
  (backoff_factor c * inject_Z (2 ^ (attempt - 1)))%Q.

(** [_get_backoff].  The power is an integer, converted to a float for the
    product: from 2 ** 1024 on the conversion raises.  It is only called
    with [attempt >= 1].  The product is the float the code computes as
    long as it is finite (see [finite_wait]). *)
Definition _get_backoff (c : YoloHTTPClient) (attempt : Z) : result Q :=
  if 1024 <=? attempt - 1
  then Raised (OverflowError "int too large to convert to float")
  else Returned (backoff_value c attempt).

(** The outside world of one call: which paths exist; the [OSError] with
    which [p.open("rb")] fails at an attempt, if it does (a directory, a
    file that may not be read); what the [client.post] of an attempt does;
    and the exception with which [time.sleep] refuses a length, if it does
    (a negative one, or one the interpreter or the platform's clock cannot
    represent). *)
Record world := {
  path_exists : string → bool;
  open_error : Z → option string;
  post : Z → result Response;
  time_sleep_error : Q → option exn
}.

(** [predict] sleeps with [time.sleep], [predict_async] with
    [asyncio.sleep]; the two loops are otherwise the same text. *)
Inductive flavour := Sync | Async.

Inductive event :=
| Post (attempt : Z)
| TimeSleep (seconds : Q)
| AsyncioSleep (seconds : Q).

(** [time.sleep] returns once the length has passed, unless it refuses the
    length. *)
Definition time_sleep (w : world) (seconds : Q) : result unit :=
  match time_sleep_error w seconds with
  | Some e => Raised e
  | None => Returned ()
  end.

(** [asyncio.sleep] yields at once for a length of zero or less and
    suspends for the length otherwise. *)
Definition asyncio_sleep (seconds : Q) : result unit := Returned ().

Definition sleep (w : world) (fl : flavour) (seconds : Q) : result unit :=
  match fl with
  | Sync => time_sleep w seconds
  | Async => asyncio_sleep seconds
  end.

(** The event a sleep that returns leaves in the trace. *)
Definition wait (fl : flavour) (seconds : Q) : event :=
  match fl with
  | Sync => TimeSleep seconds
  | Async => AsyncioSleep seconds
  end.

Definition is_post (e : event) : bool :=
  match e with Post _ => true | _ => false end.

Definition is_sleep (e : event) : bool :=
  match e with Post _ => false | _ => true end.

(** The body of the [try] block, given what [client.post] did. *)
Definition try_body (c : YoloHTTPClient) (posted : result Response) : result value :=
  match posted with
  | Raised e => Raised e
  | Returned r =>
      if bool_decide (status_code r ∈ retry_statuses c)
      then Raised (HTTPStatusError (pretty (status_code r) +:+ " response") (status_code r))
      else match raise_for_status r with
           | Some e => Raised e
           | None => json r
           end
  end.

(** [except (httpx.RequestError, httpx.HTTPStatusError)]. *)
Definition caught (e : exn) : bool :=
  match e with
  | RequestError _ | HTTPStatusError _ _ => true
  | _ => false
  end.

(** [raise last_exc] after the loop. *)
Definition raise_last (last_exc : option exn) : result value :=
  match last_exc with
  | Some e => Raised e
  | None => Raised (TypeError "exceptions must derive from BaseException")
  end.

(** The two lines of the handler after the test for the last attempt:
    [backoff = self._get_backoff(attempt)] and the sleep. *)
Definition pause (w : world) (fl : flavour) (c : YoloHTTPClient) (attempt : Z) : result Q :=
  backoff ← _get_backoff c attempt;
  _ ← sleep w fl backoff;
  mret backoff.

(** The [for attempt in range(1, self.retries + 1)] loop, over the attempts
    still to run.  A post is recorded once the file is open; a wait once the
    sleep has returned. *)
Fixpoint attempts (fl : flavour) (c : YoloHTTPClient) (w : world)
    (rng : list Z) (last_exc : option exn) (tr : list event)
    : result value * list event :=
  match rng with
  | [] => (raise_last last_exc, tr)
  | attempt :: rng' =>
      match open_error w attempt with
      | Some msg => (Raised (OSError msg), tr)      (* not an httpx error *)
      | None =>
          let tr := tr ++ [Post attempt] in
          match try_body c (post w attempt) with
          | Returned v => (Returned v, tr)
          | Raised e =>
              if caught e then
                if attempt =? retries c
                then (raise_last (Some e), tr)                   (* break *)
                else match pause w fl c attempt with
                     | Returned backoff =>
                         attempts fl c w rng' (Some e) (tr ++ [wait fl backoff])
                     | Raised e' => (Raised e', tr)
                     end
              else (Raised e, tr)
          end
      end
  end.

Section WithPathlib.
Context `{Pathlib}.

Definition predict_with (fl : flavour) (c : YoloHTTPClient) (w : world)
    (image_path : string) : result value * list event :=
  if negb (path_exists w image_path)
  then (Raised (FileNotFoundError (Path_str image_path)), [])
  else attempts fl c w (py_range 1 (retries c + 1)) None [].

Definition predict := predict_with Sync.
Definition predict_async := predict_with Async.

End WithPathlib.

(** *** Vocabulary of the retry properties *)

(** A retryable failure of one attempt: a network-level error, or a
    response whose status is in the client's retry set. *)
Definition retryable_failure (c : YoloHTTPClient) (posted : result Response) : Prop :=
  match posted with
  | Raised e => ∃ msg, e = RequestError msg
  | Returned r => status_code r ∈ retry_statuses c
  end.

(** The exception such an attempt leaves in [last_exc]. *)
Definition failure_of (posted : result Response) : exn :=
  match posted with
  | Raised e => e
  | Returned r => HTTPStatusError (pretty (status_code r) +:+ " response") (status_code r)
  end.

(** A success: a 2xx response outside the retry set whose body parses to
    [payload]. *)
Definition success (c : YoloHTTPClient) (posted : result Response) (payload : value) : Prop :=
  match posted with
  | Raised _ => False
  | Returned r =>
      200 ≤ status_code r < 300 ∧ (status_code r ∉ retry_statuses c) ∧
      json r = Returned payload
  end.

(** The file opens at each of the attempts [a .. b]. *)
Definition opens (w : world) (a b : Z) : Prop :=
  ∀ k, a ≤ k ≤ b → open_error w k = None.

(** The wait after attempt [k] is a finite float: the product stays below
    2^1024 in size, where a float overflows to infinity. *)
Definition finite_wait (c : YoloHTTPClient) (k : Z) : Prop :=
  (- inject_Z (2 ^ 1024) < backoff_value c k)%Q ∧
  (backoff_value c k < inject_Z (2 ^ 1024))%Q.

(** The wait after each of the attempts [a .. b] is a finite float that the
    sleep accepts. *)
Definition sleeps (w : world) (fl : flavour) (c : YoloHTTPClient) (a b : Z) : Prop :=
  ∀ k, a ≤ k ≤ b → finite_wait c k ∧ sleep w fl (backoff_value c k) = Returned ().

(** The trace of [n] failed attempts starting at attempt [a], each but the
    last followed by its backoff wait. *)
Fixpoint failed_run (fl : flavour) (c : YoloHTTPClient) (a : Z) (n : nat) : list event :=
  match n with
  | O => []
  | S O => [Post a]
  | S n' => Post a :: wait fl (backoff_value c a) :: failed_run fl c (a + 1) n'
  end.

(** A failed attempt, as the loop sees it: a network-level error, or a
    response whose status is in the retry set or outside 200..299.  Both
    kinds of response end in an [HTTPStatusError], which the [except] clause
    catches. *)
Definition failed_attempt (c : YoloHTTPClient) (posted : result Response) : Prop :=
  match posted with
  | Raised e => ∃ msg, e = RequestError msg
  | Returned r =>
      status_code r ∈ retry_statuses c ∨ status_code r < 200 ∨ 300 ≤ status_code r
  end.

(** An attempt that ends the call with an exception the loop does not
    catch: [client.post] raises something that is no httpx error, or a 2xx
    response outside the retry set has a body that [r.json()] rejects. *)
Definition fatal_attempt (c : YoloHTTPClient) (posted : result Response) (e : exn) : Prop :=
  caught e = false ∧
  match posted with
  | Raised e' => e' = e
  | Returned r =>
      (status_code r ∉ retry_statuses c) ∧ 200 ≤ status_code r < 300 ∧
      json r = Raised e
  end.

(** What the exception is that an attempt leaves in [last_exc]. *)
Definition attempt_exn (c : YoloHTTPClient) (posted : result Response) : exn :=
  match try_body c posted with
  | Raised e => e
  | Returned _ => TypeError "no exception"
  end.

(** The time a trace spends sleeping. *)
Fixpoint waited (tr : list event) : Q :=
  match tr with
  | [] => 0
  | Post _ :: tr' => waited tr'
  | TimeSleep d :: tr' | AsyncioSleep d :: tr' => d + waited tr'
  end.

(** *** Example servers *)

(** [time.sleep] of CPython on a Linux machine that has been up for
    [uptime] seconds.  The length is converted to nanoseconds in a signed
    64-bit integer; a negative length is refused; and the deadline, counted
    from the start of the machine, must fit the same integer. *)
Definition cpython_sleep (uptime : Q) (seconds : Q) : option exn :=
  let ns_max := inject_Z (2 ^ 63 - 1) in
  let ns (s : Q) := (s * inject_Z 1000000000)%Q in
  if negb (Qle_bool (ns seconds) ns_max && Qle_bool (- ns_max) (ns seconds))
  then Some (OverflowError "timestamp too large to convert to C _PyTime_t")
  else if negb (Qle_bool 0 seconds)
  then Some (ValueError "sleep length must be non-negative")
  else if negb (Qle_bool (ns (uptime + seconds)%Q) ns_max)
  then Some (OSError "[Errno 22] Invalid argument")
  else None.

(** The machine of the examples has been up for an hour. *)
Definition linux_clock : Q → option exn := cpython_sleep (inject_Z 3600).

(** The responses of tests/test_client_retry.py are [DummyResponse]
    objects, whose [raise_for_status] message reads "<status> Error". *)
Definition dummy_response (status : Z) (body : result value) : Response :=
  {| status_code := status; json := body; status_message := pretty status +:+ " Error" |}.

(** The server of tests/test_client_retry.py: two 503 responses, then a
    200 with body [{"ok": true}]. *)
Definition flaky_server : world :=
  {| path_exists := λ _, true;
     open_error := λ _, None;
     post := λ attempt,
       if attempt <=? 2
       then Returned (dummy_response 503
                        (Returned (VDict [("error", VStr "service unavailable")])))
       else Returned (dummy_response 200 (Returned (VDict [("ok", VBool true)])));
     time_sleep_error := linux_clock |}.

(** A server that is down: every post fails at the network level. *)
Definition dead_server : world :=
  {| path_exists := λ _, true;
     open_error := λ _, None;
     post := λ _, Raised (RequestError "always fail");
     time_sleep_error := linux_clock |}.

(** A server that answers 200 with a body that is not JSON. *)
Definition html_server : world :=
  {| path_exists := λ _, true;
     open_error := λ _, None;
     post := λ _, Returned (dummy_response 200 (Raised JSONDecodeError));
     time_sleep_error := linux_clock |}.

(** A server that answers every post with 404. *)
Definition not_found_server : world :=
  {| path_exists := λ _, true;
     open_error := λ _, None;
     post := λ _,
       Returned (dummy_response 404 (Returned (VDict [("detail", VStr "Not Found")])));
     time_sleep_error := linux_clock |}.

(** The image path names a directory: it exists and cannot be opened. *)
Definition directory_path : world :=
  {| path_exists := λ _, true;
     open_error := λ _, Some "[Errno 21] Is a directory: 'img.jpg'";
     post := λ _, Returned (dummy_response 200 (Returned (VDict [("ok", VBool true)])));
     time_sleep_error := linux_clock |}.

End Http.

(* --------------------------------------------------------------------- *)
(** ** app/utils/postprocess.py *)
(* --------------------------------------------------------------------- *)

Module Postprocess.

(** [b[i]] on a Python list. *)
Definition getitem (b : list float) (i : nat) : result float :=
  match b !! i with
  | Some x => Returned x
  | None => Raised (IndexError "list index out of range")
  end.

(** [names.get(int(c), str(int(c)))]; the class indices are the integers
    of the signature, on which [int] is the identity. *)
Definition label_of (names : gmap Z string) (c : Z) : string :=
  match names !! c with
  | Some label => label
  | None => pretty c
  end.

(** One pass through the loop body: the dict appended to [out]. *)
Definition detection (names : gmap Z string) (b : list float) (s : float) (c : Z)
    : result value :=
  let label := label_of names c in
  x1 ← getitem b 0; y1 ← getitem b 1; x2 ← getitem b 2; y2 ← getitem b 3;
  mret (VDict [ ("box", VList [VFloat x1; VFloat y1; VFloat x2; VFloat y2]);
                ("score", VFloat s);
                ("class_id", VInt c);
                ("label", VStr label) ]).

(** [for b, s, c in zip(boxes, scores, classes)]: the loop ends with the
    shortest list. *)
Fixpoint format_loop (names : gmap Z string) (boxes : list (list float))
    (scores : list float) (classes : list Z) (out : list value) : result (list value) :=
  match boxes, scores, classes with
  | b :: boxes', s :: scores', c :: classes' =>
      d ← detection names b s c;
      format_loop names boxes' scores' classes' (out ++ [d])
  | _, _, _ => Returned out
  end.

Definition format_detections (boxes : list (list float)) (scores : list float)
    (classes : list Z) (names : option (gmap Z string)) : result (list value) :=
  let names := default ∅ names in     (* names = names or {} *)
  format_loop names boxes scores classes [].

(** The detection built from a box, its score and its class: the first four
    coordinates of the box and the label of the class. *)
Definition nth_detection (names : gmap Z string) (b : list float) (s : float) (c : Z) : value :=
  VDict [ ("box", VList (VFloat <$> take 4 b));
          ("score", VFloat s);
          ("class_id", VInt c);
          ("label", VStr (label_of names c)) ].

End Postprocess.

(* --------------------------------------------------------------------- *)
(** ** app/model.py *)
(* --------------------------------------------------------------------- *)

Module Model.

(** [print(line)]: the line goes to the standard output, unless that is
    closed, when the call raises.  The second component is what was
    printed. *)
Definition print (stdout_ok : bool) (line : string) : result unit * list string :=
  if stdout_ok then (Returned (), [line])
  else (Raised (ValueError "I/O operation on closed file."), []).

(** [StubModel.load]. *)
Definition StubModel_load (stdout_ok : bool) (weights_path : option string)
    : result unit * list string :=
  print stdout_ok "StubModel loaded (no weights)".

Section WithPathlib.
Context `{Pathlib}.

(** [StubModel.infer]. *)
Definition StubModel_infer (image_path : string) : value :=
  VDict [ ("image", VStr (Path_str image_path));
          ("width", VNone);
          ("height", VNone);
          ("detections", VList []);
          ("model", VDict [ ("adapter", VStr "stub");
                            ("mode", VStr "dry-run");
                            ("version", VNone) ]) ].

End WithPathlib.

End Model.

(* --------------------------------------------------------------------- *)
(** ** app/loader.py *)
(* --------------------------------------------------------------------- *)

Module Loader.

(** What [_parse_results] reads of the detector's output, after the
    conversion of tensors to Python lists. *)
Record Boxes := {
  xyxy : option (list (list float));
  conf : option (list float);
  cls : option (list Z)
}.

Record Results := {
  orig_shape : option (list Z);
  boxes : option Boxes
}.

(** A constructed detector: its class-name table (when it has one) and its
    prediction entry points. *)
Record Detector := {
  det_names : option (gmap Z string);
  det_predict : option (string → result (list Results));  (* model.predict *)
  det_call : string → result (list Results)               (* model(path) *)
}.

(** The detector library, when it can be imported. *)
Record Ultralytics := {
  ul_version : option string;
  YOLO : option string → result Detector    (* YOLO(weights) and YOLO() *)
}.

(** The environment of the loader. *)
Record env := {
  ultralytics : result Ultralytics;          (* the outcome of the import *)
  os_path_exists : string → bool;
  normalize_weights : string → result string; (* expanduser / resolve *)
  stdout_ok : bool
}.

(** The attributes of a [YolovXAdapter]. *)
Record adapter := {
  model : option Detector;
  mode : string;
  names : gmap Z string;
  version : option string
}.

(** [YolovXAdapter.__init__]. *)
Definition new : adapter :=
  {| model := None; mode := "dry-run"; names := ∅; version := None |}.

(** [YolovXAdapter.load]. *)
Definition load (E : env) (self : adapter) (weights_path : option string) : adapter :=
  match ultralytics E with
  | Raised _ =>
      (* ultralytics not installed -> dry run *)
      {| model := None; mode := "dry-run"; names := ∅; version := version self |}
  | Returned ul =>
      let '(model', mode') :=
        if truthy weights_path && os_path_exists E (default "" weights_path) then
          match YOLO ul weights_path with
          | Returned d => (Some d, "inference")
          | Raised _ => (None, "no-weights")
          end
        else
          match YOLO ul None with
          | Returned d => (Some d, "no-weights")
          | Raised _ => (None, "no-weights")
          end in
      let names' :=
        match model' with
        | Some d => default ∅ (det_names d)
        | None => ∅
        end in
      {| model := model'; mode := mode'; names := names'; version := ul_version ul |}
  end.

Definition opt_int (n : option Z) : value :=
  match n with Some n => VInt n | None => VNone end.

Definition opt_str (s : option string) : value :=
  match s with Some s => VStr s | None => VNone end.

(** The stable schema every path of the adapter returns. *)
Definition schema (self : adapter) (image_path : string) (width height : option Z)
    (detections : list value) : value :=
  VDict [ ("image", VStr image_path);
          ("width", opt_int width);
          ("height", opt_int height);
          ("detections", VList detections);
          ("model", VDict [ ("adapter", VStr "yolovx");
                            ("mode", VStr (mode self));
                            ("version", opt_str (version self)) ]) ].

(** [YolovXAdapter._parse_results]: any failure while parsing leaves an
    empty detection list. *)
Definition _parse_results (self : adapter) (results : list Results)
    (image_path : string) : value :=
  match results with
  | [] => schema self image_path None None []
  | r :: _ =>
      let '(height, width) :=
        match orig_shape r with
        | Some (h :: w :: _) => (Some h, Some w)
        | _ => (None, None)
        end in
      match boxes r with
      | None => schema self image_path width height []
      | Some bo =>
          let boxes := default [] (xyxy bo) in
          let scores := default (replicate (length boxes) (Finite 0)) (conf bo) in
          let classes := default (replicate (length boxes) 0) (cls bo) in
          let n := Nat.min (length boxes) (Nat.min (length scores) (length classes)) in
          let detections :=
            try_except
              (Postprocess.format_detections (take n boxes) (take n scores)
                 (take n classes) (Some (names self)))
              (λ _, []) in
          schema self image_path width height detections
      end
  end.

(** The number of boxes the first result carries. *)
Definition box_count (results : list Results) : nat :=
  match results with
  | [] => 0
  | r :: _ =>
      match boxes r with
      | None => 0
      | Some bo => length (default [] (xyxy bo))
      end
  end.

(** [YolovXAdapter.infer]: a failure of the detector itself propagates. *)
Definition YolovXAdapter_infer (self : adapter) (image_path : string) : result value :=
  match model self with
  | None => Returned (schema self image_path None None [])
  | Some d =>
      results ← match det_predict d with
                | Some predict => predict image_path
                | None => det_call d image_path
                end;
      mret (_parse_results self results image_path)
  end.

(** The two implementations of [BaseModel]. *)
Inductive BaseModel :=
| StubModel
| YolovXAdapter (self : adapter).

(** [m.load(weights)]: the instance afterwards, the exception if the call
    raised, and what it printed. *)
Definition BaseModel_load (E : env) (m : BaseModel) (weights : option string)
    : BaseModel * option exn * list string :=
  match m with
  | StubModel =>
      match Model.StubModel_load (stdout_ok E) weights with
      | (Returned _, printed) => (StubModel, None, printed)
      | (Raised e, printed) => (StubModel, Some e, printed)
      end
  | YolovXAdapter self => (YolovXAdapter (load E self weights), None, [])
  end.

(** The adapter aliases [get_model] normalises to "yolovx". *)
Definition chosen (adapter : string) : string :=
  if startswith adapter "yolo" || startswith adapter "yolov"
     || contains "yolovx" adapter || contains "yolov" adapter
  then "yolovx"
  else if String.eqb adapter "yolovx" || String.eqb adapter "yolox"
  then "yolovx"
  else "stub".

(** [get_model], with what the call printed on the standard output. *)
Definition get_model_io (E : env) (adapter : option string) (weights : option string)
    : result BaseModel * list string :=
  let adapter := lower (if truthy adapter then default "" adapter else "stub") in
  let chosen := chosen adapter in
  let weights :=
    if truthy weights
    then try_except (w ← normalize_weights E (default "" weights); mret (Some w))
                    (λ _, weights)
    else weights in
  let m := if String.eqb chosen "yolovx" then YolovXAdapter new else StubModel in
  let '(m, _, printed) := BaseModel_load E m weights in   (* try / except Exception *)
  (Returned m, printed).

(** [get_model]: what the call returns. *)
Definition get_model (E : env) (adapter : option string) (weights : option string)
    : result BaseModel :=
  (get_model_io E adapter weights).1.

(** The name [get_model] tests: [(adapter or "stub").lower()]. *)
Definition adapter_name (adapter : option string) : string :=
  lower (if truthy adapter then default "" adapter else "stub").

Section WithPathlib.
Context `{Pathlib}.

(** [m.infer(image_path)]. *)
Definition infer (m : BaseModel) (image_path : string) : result value :=
  match m with
  | StubModel => Returned (Model.StubModel_infer image_path)
  | YolovXAdapter self => YolovXAdapter_infer self image_path
  end.

End WithPathlib.

(** *** Example environments *)

(** A detector that fails on every image. *)
Definition failing_detector : Detector :=
  {| det_names := None;
     det_predict := Some (λ _, Raised (RuntimeError "CUDA out of memory"));
     det_call := λ _, Raised (RuntimeError "CUDA out of memory") |}.

(** A detector whose one box comes with a confidence that is not a
    number. *)
Definition nan_detector : Detector :=
  {| det_names := Some ∅;
     det_predict :=
       Some (λ _, Returned [ {| orig_shape := Some [1; 1];
                                boxes := Some {| xyxy := Some [ floats [0; 0; 1; 1] ]%Q;
                                                 conf := Some [ NaN ];
                                                 cls := Some [0] |} |} ]);
     det_call := λ _, Returned [] |}.

(** A detector that finds nothing. *)
Definition blind_detector : Detector :=
  {| det_names := Some ∅;
     det_predict := Some (λ _, Returned [ {| orig_shape := Some [10; 10]; boxes := None |} ]);
     det_call := λ _, Returned [] |}.

(** A result with two boxes and neither confidences nor classes. *)
Definition two_boxes : Results :=
  {| orig_shape := Some [480; 640];
     boxes := Some {| xyxy := Some [ floats [1; 2; 30; 40]; floats [5; 6; 70; 80] ]%Q;
                      conf := None; cls := None |} |}.

(** A result whose second box lacks two coordinates. *)
Definition ragged_boxes : Results :=
  {| orig_shape := Some [480; 640];
     boxes := Some {| xyxy := Some [ floats [1; 2; 30; 40]; floats [5; 6] ]%Q;
                      conf := Some (floats [ 9 # 10; 1 # 2 ])%Q; cls := Some [0; 1] |} |}.

(** The library is installed and builds a detector from any weights. *)
Definition env_ok : env :=
  {| ultralytics := Returned {| ul_version := Some "8.0.0"; YOLO := λ _, Returned blind_detector |};
     os_path_exists := λ p, String.eqb p "/models/yolov8n.pt";
     normalize_weights := λ w, Returned w;
     stdout_ok := true |}.

(** The library is installed but cannot build a detector from the weights
    file, which exists. *)
Definition env_bad_weights : env :=
  {| ultralytics :=
       Returned {| ul_version := Some "8.0.0";
                   YOLO := λ w, match w with
                                | Some _ => Raised (RuntimeError "invalid weights file")
                                | None => Returned blind_detector
                                end |};
     os_path_exists := λ p, String.eqb p "/models/yolov8n.pt";
     normalize_weights := λ w, Returned w;
     stdout_ok := true |}.

(** The standard output is closed, so [StubModel.load] raises. *)
Definition env_closed_stdout : env :=
  {| ultralytics := Raised (Exception "No module named 'ultralytics'");
     os_path_exists := λ _, false;
     normalize_weights := λ w, Raised (RuntimeError "Could not determine home directory");
     stdout_ok := false |}.

(** The library is not installed. *)
Definition env_no_library : env :=
  {| ultralytics := Raised (Exception "No module named 'ultralytics'");
     os_path_exists := λ p, String.eqb p "/models/yolov8n.pt";
     normalize_weights := λ w, Returned w;
     stdout_ok := true |}.

End Loader.

(* --------------------------------------------------------------------- *)
(** ** app/main.py *)
(* --------------------------------------------------------------------- *)

Module Main.

(** The module's globals and the machine the application runs on.
    [MAX_UPLOAD_SIZE] is the module constant the handler reads on every
    request; [MODEL] and [UPLOAD_DIR] are set by the lifespan; [pillow] is
    the outcome of [from PIL import Image]: when the import succeeds,
    whether [Image.open(path).verify()] accepts a file's content.
    [mkdir_error] is the exception with which
    [Path(dir).mkdir(parents=True, exist_ok=True)] fails, if it does (the
    name is taken by a file, a parent may not be written); [open_error] the
    one with which [Path(path).open("wb")] fails (the name is too long, the
    directory may not be written).  A file that opened can be written,
    closed and removed. *)
Record app := {
  MAX_UPLOAD_SIZE : Z;
  UPLOAD_DIR : string;
  MODEL : option Loader.BaseModel;
  pillow : option (list byte → bool);
  mkdir_error : string → option exn;
  open_error : string → option exn
}.

Definition DEFAULT_MAX_UPLOAD_SIZE : Z := 5 * 1024 * 1024.

Definition ALLOWED_CONTENT_TYPES : gset string :=
  {[ "image/jpeg"; "image/png"; "image/webp" ]}.

Definition chunk_size : Z := 1024 * 1024.

(** The request: the multipart part's headers and its body. *)
Record UploadFile := {
  content_type : option string;
  filename : option string;
  body : list byte
}.

(** What the handler does to the outside world. *)
Inductive io :=
| Mkdir (dir : string)
| Open (path : string)
| Read (size : Z)
| Write (path : string) (chunk : list byte)
| CloseFile (path : string)
| Unlink (path : string)
| CloseUpload
| Infer (path : string).

(** The world of one request: the files on disk, the part of the body not
    read yet, whether the upload was closed, and the operations so far. *)
Record state := {
  fs : gmap string (list byte);
  unread : list byte;
  closed : bool;
  log : list io
}.

Definition emit (e : io) (st : state) : state :=
  {| fs := fs st; unread := unread st; closed := closed st; log := log st ++ [e] |}.

Definition set_fs (files : gmap string (list byte)) (st : state) : state :=
  {| fs := files; unread := unread st; closed := closed st; log := log st |}.

(** [await file.read(size)]: the next [size] bytes, fewer at the end. *)
Definition read (size : Z) (st : state) : list byte * state :=
  (take (Z.to_nat size) (unread st),
   {| fs := fs st; unread := drop (Z.to_nat size) (unread st);
      closed := closed st; log := log st ++ [Read size] |}).

(** [path.open("wb")], when it succeeds: the file exists and is empty. *)
Definition open_wb (path : string) (st : state) : state :=
  emit (Open path) (set_fs (<[path := []]> (fs st)) st).

(** [f.write(chunk)]: the chunk is appended. *)
Definition write (path : string) (chunk : list byte) (st : state) : state :=
  emit (Write path chunk) (set_fs (alter (λ content, content ++ chunk) path (fs st)) st).

(** [path.unlink()] raises when the file is not there. *)
Definition unlink (path : string) (files : gmap string (list byte))
    : result (gmap string (list byte)) :=
  match files !! path with
  | Some _ => Returned (delete path files)
  | None => Raised (FileNotFoundError path)
  end.

(** [try: path.unlink() except FileNotFoundError: pass]. *)
Definition unlink_if_present (path : string) (st : state) : state :=
  emit (Unlink path) (set_fs (try_except (unlink path (fs st)) (λ _, fs st)) st).

(** [await file.close()], in the [finally] clause. *)
Definition close_upload (st : state) : state :=
  {| fs := fs st; unread := unread st; closed := true; log := log st ++ [CloseUpload] |}.

Inductive loop_end := Finished | TooLarge | OutOfFuel.

(** The [while True] loop.  Every pass but the last consumes at least one
    byte, so [S (length (unread st))] passes are enough. *)
Fixpoint write_loop (fuel : nat) (limit : Z) (path : string) (uploaded : Z)
    (st : state) : loop_end * state :=
  match fuel with
  | O => (OutOfFuel, st)
  | S fuel' =>
      let '(chunk, st) := read chunk_size st in
      match chunk with
      | [] => (Finished, st)                                    (* break *)
      | _ :: _ =>
          let uploaded := uploaded + Z.of_nat (length chunk) in
          if limit <? uploaded
          then (TooLarge, unlink_if_present path (emit (CloseFile path) st))
          else write_loop fuel' limit path uploaded (write path chunk st)
      end
  end.

(** How a request ends: with an [HTTPException] the handler raised, with
    the [JSONResponse] it returned, or with another exception that leaves
    the handler, which the server answers with status 500. *)
Inductive response :=
| HTTPException (status_code : Z) (detail : string)
| JSONResponse (content : value)
| InternalServerError (e : exn).

Definition status_of (r : response) : Z :=
  match r with
  | HTTPException status_code _ => status_code
  | JSONResponse _ => 200
  | InternalServerError _ => 500
  end.

(** [JSONResponse(content)] renders the content when it is built, with
    [json.dumps(..., allow_nan=False)]. *)
Definition render (content : value) : result value :=
  if json_compliant content then Returned content
  else Raised (ValueError "Out of range float values are not JSON compliant").

(** The bytes written to [path], in order, according to a log. *)
Fixpoint written (path : string) (l : list io) : list byte :=
  match l with
  | [] => []
  | Write p chunk :: l' =>
      if String.eqb p path then chunk ++ written path l' else written path l'
  | _ :: l' => written path l'
  end.

Section WithPathlib.
Context `{Pathlib}.

(** [_secure_filename]. *)
Definition _secure_filename (filename : string) : string := Path_name filename.

(** The path the handler saves the upload under; [token] is
    [uuid.uuid4().hex]. *)
Definition upload_path (A : app) (token : string) (file : UploadFile) : string :=
  let safe_name :=
    _secure_filename (if truthy (filename file) then default "" (filename file)
                      else "upload") in
  let file_id := token +:+ "_" +:+ safe_name in
  Path_joinpath (UPLOAD_DIR A) file_id.

(** The request starts with the whole body unread. *)
Definition initial (files : gmap string (list byte)) (file : UploadFile) : state :=
  {| fs := files; unread := body file; closed := false; log := [] |}.

(** The handler from the end of the loop on: the image check, then the
    model.  The response is built inside the [try] around the inference. *)
Definition after_write (A : app) (path : string) (st : state) : option (response * state) :=
  let st := emit (CloseFile path) st in
  let valid :=
    match pillow A with
    | None => true
    | Some verify => verify (default [] (fs st !! path))
    end in
  if negb valid
  then Some (HTTPException 400 "invalid image file",
             close_upload (unlink_if_present path st))
  else
    let st := close_upload st in
    match MODEL A with
    | None =>
        Some (JSONResponse (VDict [ ("message", VStr "model not loaded (dry-run)");
                                    ("path", VStr path) ]), st)
    | Some m =>
        let st := emit (Infer path) st in
        match (result ← Loader.infer m path;
               render (VDict [ ("result", result); ("path", VStr path) ])) with
        | Returned content => Some (JSONResponse content, st)
        | Raised e => Some (HTTPException 500 (exn_str e), st)
        end
    end.

(** The [/predict] handler.  [None] only if the loop ran out of fuel.  The
    directory is made before the [try] whose [finally] closes the upload;
    the file is opened inside it. *)
Definition predict (A : app) (token : string) (file : UploadFile)
    (files : gmap string (list byte)) : option (response * state) :=
  let st := initial files file in
  let content_type := lower (default "" (content_type file)) in
  if negb (bool_decide (content_type ∈ ALLOWED_CONTENT_TYPES))
  then Some (HTTPException 400 ("unsupported content type: " +:+ content_type), st)
  else
    match mkdir_error A (UPLOAD_DIR A) with
    | Some e => Some (InternalServerError e, st)
    | None =>
        let st := emit (Mkdir (UPLOAD_DIR A)) st in
        let path := upload_path A token file in
        match open_error A path with
        | Some e => Some (InternalServerError e, close_upload st)
        | None =>
            let st := open_wb path st in
            match write_loop (S (length (unread st))) (MAX_UPLOAD_SIZE A) path 0 st with
            | (OutOfFuel, _) => None
            | (TooLarge, st) =>
                Some (HTTPException 413 "file too large", close_upload st)
            | (Finished, st) => after_write A path st
            end
        end
    end.

End WithPathlib.

(** The class name [health] reports. *)
Definition class_name (m : Loader.BaseModel) : string :=
  match m with
  | Loader.StubModel => "StubModel"
  | Loader.YolovXAdapter _ => "YolovXAdapter"
  end.

(** [getattr(MODEL, "mode", None)] and [getattr(MODEL, "version", None)]:
    a [StubModel] has neither attribute. *)
Definition getattr_mode (m : Loader.BaseModel) : value :=
  match m with
  | Loader.StubModel => VNone
  | Loader.YolovXAdapter self => VStr (Loader.mode self)
  end.

Definition getattr_version (m : Loader.BaseModel) : value :=
  match m with
  | Loader.StubModel => VNone
  | Loader.YolovXAdapter self => Loader.opt_str (Loader.version self)
  end.

(** The [/health] handler. *)
Definition health (A : app) : value :=
  let meta :=
    VDict [ ("adapter", match MODEL A with Some m => VStr (class_name m) | None => VNone end);
            ("mode", match MODEL A with Some m => getattr_mode m | None => VNone end);
            ("version", match MODEL A with Some m => getattr_version m | None => VNone end) ] in
  VDict [ ("status", VStr "ok"); ("model", meta) ].

(** The directory the lifespan reads from the environment. *)
Definition upload_dir (getenv : string → option string) : string :=
  let upload_env := getenv "UPLOAD_DIR" in
  if truthy upload_env then default "" upload_env else "uploads".

(** The start-up half of [lifespan]: the model comes from the factory, the
    upload directory from the environment, and the directory is made.
    [getenv] is [os.getenv].  An exception here keeps the application from
    starting. *)
Definition lifespan_startup (getenv : string → option string) (E : Loader.env) (A : app)
    : result app :=
  let adapter := default "stub" (getenv "MODEL_ADAPTER") in
  let weights := getenv "MODEL_WEIGHTS" in
  m ← Loader.get_model E (Some adapter) weights;
  match mkdir_error A (upload_dir getenv) with
  | Some e => Raised e
  | None =>
      mret {| MAX_UPLOAD_SIZE := MAX_UPLOAD_SIZE A;
              UPLOAD_DIR := upload_dir getenv;
              MODEL := Some m;
              pillow := pillow A;
              mkdir_error := mkdir_error A;
              open_error := open_error A |}
  end.

(** The shutdown half of [lifespan]. *)
Definition lifespan_shutdown (A : app) : app :=
  {| MAX_UPLOAD_SIZE := MAX_UPLOAD_SIZE A; UPLOAD_DIR := UPLOAD_DIR A;
     MODEL := None; pillow := pillow A;
     mkdir_error := mkdir_error A; open_error := open_error A |}.

(** Every write in a log goes to [path] and carries between one and
    [chunk_size] bytes. *)
Definition bounded_writes (path : string) (l : list io) : Prop :=
  Forall (λ e, match e with
               | Write p chunk => p = path ∧ 0 < Z.of_nat (length chunk) ≤ chunk_size
               | _ => True
               end) l.

(** The same upload under another content type. *)
Definition with_content_type (ct : option string) (file : UploadFile) : UploadFile :=
  {| content_type := ct; filename := filename file; body := body file |}.

(** *** Example applications *)

(** A valid image: a PNG of one gray pixel. *)
Definition one_pixel_png : list byte :=
  [ x89; x50; x4e; x47; x0d; x0a; x1a; x0a;
    x00; x00; x00; x0d; x49; x48; x44; x52; x00; x00; x00; x01; x00; x00; x00; x01;
    x08; x00; x00; x00; x00; x3a; x7e; x9b; x55;
    x00; x00; x00; x0a; x49; x44; x41; x54; x78; x9c; x63; x60; x00; x00; x00; x02;
    x00; x01; x48; xaf; xa4; x71;
    x00; x00; x00; x00; x49; x45; x4e; x44; xae; x42; x60; x82 ].

Definition byte_eqb (a b : byte) : bool := (Byte.to_N a =? Byte.to_N b)%N.

Fixpoint bytes_eqb (a b : list byte) : bool :=
  match a, b with
  | [], [] => true
  | x :: a', y :: b' => byte_eqb x y && bytes_eqb a' b'
  | _, _ => false
  end.

(** The image check of the examples: of the files they upload, the
    one-pixel PNG is the only image. *)
Definition verify_example (content : list byte) : bool :=
  bytes_eqb content one_pixel_png.

(** The file names of a Linux machine: a name cannot hold a NUL byte, and
    a component of more than 255 bytes is too long for a directory entry. *)
Definition linux_names (path : string) : option exn :=
  if contains (String (Ascii.ascii_of_nat 0) "") path
  then Some (ValueError "embedded null byte")
  else if existsb (λ part, Nat.ltb 255 (String.length part)) (split_slash "" path)
  then Some (OSError ("[Errno 36] File name too long: '" +:+ path +:+ "'"))
  else None.

(** The application as the lifespan leaves it by default: the stub model
    and the "uploads" directory, with Pillow installed and accepting the
    files [verify] accepts. *)
Definition default_app (verify : list byte → bool) : app :=
  {| MAX_UPLOAD_SIZE := DEFAULT_MAX_UPLOAD_SIZE;
     UPLOAD_DIR := "uploads";
     MODEL := Some Loader.StubModel;
     pillow := Some verify;
     mkdir_error := linux_names;
     open_error := linux_names |}.

(** An application whose detector fails on every image. *)
Definition failing_app : app :=
  {| MAX_UPLOAD_SIZE := DEFAULT_MAX_UPLOAD_SIZE;
     UPLOAD_DIR := "uploads";
     MODEL := Some (Loader.YolovXAdapter
                      {| Loader.model := Some Loader.failing_detector;
                         Loader.mode := "inference";
                         Loader.names := ∅;
                         Loader.version := Some "8.0.0" |});
     pillow := Some verify_example;
     mkdir_error := linux_names;
     open_error := linux_names |}.

(** An application whose detector reports a confidence that is not a
    number. *)
Definition nan_app : app :=
  {| MAX_UPLOAD_SIZE := DEFAULT_MAX_UPLOAD_SIZE;
     UPLOAD_DIR := "uploads";
     MODEL := Some (Loader.YolovXAdapter
                      {| Loader.model := Some Loader.nan_detector;
                         Loader.mode := "inference";
                         Loader.names := ∅;
                         Loader.version := Some "8.0.0" |});
     pillow := Some verify_example;
     mkdir_error := linux_names;
     open_error := linux_names |}.

(** An application with a ceiling of eight bytes. *)
Definition tiny_app : app :=
  {| MAX_UPLOAD_SIZE := 8;
     UPLOAD_DIR := "uploads";
     MODEL := Some Loader.StubModel;
     pillow := Some verify_example;
     mkdir_error := linux_names;
     open_error := linux_names |}.

(** An application whose upload directory cannot be made: the name is
    taken by a regular file. *)
Definition blocked_app : app :=
  {| MAX_UPLOAD_SIZE := DEFAULT_MAX_UPLOAD_SIZE;
     UPLOAD_DIR := "/etc/hostname";
     MODEL := Some Loader.StubModel;
     pillow := None;
     mkdir_error := λ dir,
       if String.eqb dir "/etc/hostname"
       then Some (OSError "[Errno 17] File exists: '/etc/hostname'")
       else linux_names dir;
     open_error := linux_names |}.

(** A file name of [n] letters and an extension. *)
Fixpoint long_name (n : nat) : string :=
  match n with
  | O => ".jpg"
  | S n' => String (Ascii.ascii_of_nat 97) (long_name n')
  end.

Definition jpeg (payload : list byte) : UploadFile :=
  {| content_type := Some "image/jpeg"; filename := Some "test.jpg"; body := payload |}.

Definition png (payload : list byte) : UploadFile :=
  {| content_type := Some "image/png"; filename := Some "pixel.png"; body := payload |}.

End Main.

(* --------------------------------------------------------------------- *)
(** ** app/core.py and client/inproc.py *)
(* --------------------------------------------------------------------- *)

Module Core.

Section WithPathlib.
Context `{Pathlib}.

(** [app.core.predict_inproc], with what the call printed on the standard
    output. *)
Definition predict_inproc_io (getenv : string → option string) (E : Loader.env)
    (image_path : string) (model : option Loader.BaseModel)
    (adapter weights : option string) : result value * list string :=
  match model with
  | Some m => (Loader.infer m image_path, [])
  | None =>
      let adapter :=
        if truthy adapter then adapter
        else Some (default "stub" (getenv "MODEL_ADAPTER")) in
      let weights := if truthy weights then weights else getenv "MODEL_WEIGHTS" in
      let '(model, printed) := Loader.get_model_io E adapter weights in
      (m ← model; Loader.infer m image_path, printed)
  end.

(** [app.core.predict_inproc]: what the call returns. *)
Definition predict_inproc (getenv : string → option string) (E : Loader.env)
    (image_path : string) (model : option Loader.BaseModel)
    (adapter weights : option string) : result value :=
  (predict_inproc_io getenv E image_path model adapter weights).1.

(** [client.inproc.predict_inproc]: [import_core] is the outcome of
    importing [app.core]. *)
Definition client_predict_inproc_io (import_core : result unit)
    (getenv : string → option string) (E : Loader.env) (image_path : string)
    (model : option Loader.BaseModel) (adapter weights : option string)
    : result value * list string :=
  match import_core with
  | Raised _ =>
      (Raised (RuntimeError
                 "in-process predict unavailable; ensure your app package is importable"),
       [])
  | Returned _ => predict_inproc_io getenv E image_path model adapter weights
  end.

Definition client_predict_inproc (import_core : result unit)
    (getenv : string → option string) (E : Loader.env) (image_path : string)
    (model : option Loader.BaseModel) (adapter weights : option string) : result value :=
  (client_predict_inproc_io import_core getenv E image_path model adapter weights).1.

End WithPathlib.

End Core.

(* --------------------------------------------------------------------- *)
(** ** client/cli.py *)
(* --------------------------------------------------------------------- *)

Module Cli.

(** The parsed arguments of the [predict] command. *)
Record args := {
  image : string;
  url : string;
  api_key : option string;
  inproc : bool;
  adapter : option string;
  weights : option string;
  use_async : bool
}.

(** What the command and the code it calls print with [print]. *)
Inductive output :=
| Printed (line : string)     (* a line printed by the code it calls *)
| Stdout (v : value)          (* _print_json(out) *)
| Stderr (line : string).

(** The surroundings of the command: the outcome of its three imports, the
    process environment, the loader's environment (with the state of the
    standard output), whether the standard error can be written, and the
    server. *)
Record env := {
  import_inproc : result unit;    (* from client.inproc import predict_inproc *)
  import_core : result unit;      (* from app.core import predict_inproc *)
  import_http : result unit;      (* from client.http import YoloHTTPClient *)
  getenv : string → option string;
  loader_env : Loader.env;
  stderr_ok : bool;
  server : Http.world
}.

(** [_print_json]. *)
Definition _print_json (E : env) (obj : value) : result unit * list output :=
  if Loader.stdout_ok (loader_env E) then (Returned (), [Stdout obj])
  else (Raised (ValueError "I/O operation on closed file."), []).

(** [print(line, file=sys.stderr); return code], in a handler: a failure of
    the print leaves the command as an exception. *)
Definition report (E : env) (line : string) (code : Z) : result Z * list output :=
  if stderr_ok E then (Returned code, [Stderr line])
  else (Raised (ValueError "I/O operation on closed file."), []).

(** [try: out = ...; _print_json(out); return 0
     except Exception as e: print(prefix + str(e), file=sys.stderr); return code],
    given what the call of the first line did and printed. *)
Definition print_or_report (E : env) (called : result value) (printed : list output)
    (prefix : string) (code : Z) : result Z * list output :=
  let failed (e : exn) (shown : list output) :=
    let '(r, err) := report E (prefix +:+ exn_str e) code in
    (r, shown ++ err) in
  match called with
  | Raised e => failed e printed
  | Returned out =>
      match _print_json E out with
      | (Returned _, shown) => (Returned 0, printed ++ shown)
      | (Raised e, shown) => failed e (printed ++ shown)
      end
  end.

Section WithPathlib.
Context `{Pathlib}.

(** [cmd_predict]: the exit code (or the exception that leaves the
    command), what was printed, and the HTTP events. *)
Definition cmd_predict (E : env) (a : args) : result Z * list output * list Http.event :=
  if inproc a then
    match import_inproc E with
    | Raised e => (report E ("inproc predict unavailable: " +:+ exn_str e) 2, [])
    | Returned _ =>
        let '(called, printed) :=
          Core.client_predict_inproc_io (import_core E) (getenv E) (loader_env E)
            (image a) None (adapter a) (weights a) in
        (print_or_report E called (Printed <$> printed) "inproc prediction failed: " 3, [])
    end
  else
    match import_http E with
    | Raised e => (report E ("http client unavailable: " +:+ exn_str e) 4, [])
    | Returned _ =>
        let client := Http.init 3 (1 # 2) None in
        let '(called, tr) :=
          if use_async a then Http.predict_async client (server E) (image a)
          else Http.predict client (server E) (image a) in
        (print_or_report E called [] "prediction failed: " 5, tr)
    end.

End WithPathlib.

(** *** Example surroundings *)

(** Everything imports, no environment variable is set, the detector
    library is missing and the server is down. *)
Definition offline : env :=
  {| import_inproc := Returned ();
     import_core := Returned ();
     import_http := Returned ();
     getenv := λ _, None;
     loader_env := Loader.env_no_library;
     stderr_ok := true;
     server := Http.dead_server |}.

(** The same with the standard output closed. *)
Definition offline_closed_stdout : env :=
  {| import_inproc := Returned ();
     import_core := Returned ();
     import_http := Returned ();
     getenv := λ _, None;
     loader_env := Loader.env_closed_stdout;
     stderr_ok := true;
     server := Http.dead_server |}.

Definition predict_args (in_process : bool) : args :=
  {| image := "img.jpg"; url := "http://127.0.0.1:8000"; api_key := None;
     inproc := in_process; adapter := None; weights := None; use_async := false |}.

End Cli.

(* ===================================================================== *)
(** * Part II: properties *)
(* ===================================================================== *)

Section HttpProperties.
Context `{Pathlib}.
Import Http.

Lemma try_body_retryable c posted :
  retryable_failure c posted →
  try_body c posted = Raised (failure_of posted) ∧ caught (failure_of posted) = true.
Proof.
  destruct posted as [r|e]; simpl.
  - intros Hin. rewrite bool_decide_eq_true_2 by done. done.
  - intros [msg ->]. done.
Qed.

Lemma try_body_success c posted payload :
  success c posted payload → try_body c posted = Returned payload.
Proof.
  destruct posted as [r|e]; simpl; [|done].
  intros ([Hlo Hhi] & Hnotin & Hjson).
  rewrite bool_decide_eq_false_2 by done.
  unfold raise_for_status.
  destruct (Z.leb_spec 200 (status_code r)); [|lia].
  destruct (Z.ltb_spec (status_code r) 300); [done | lia].
Qed.

(** The handler's two lines return the wait when the power of two converts
    and the sleep returns. *)
Lemma pause_returns w fl c k :
  k ≤ 1024 →
  sleep w fl (backoff_value c k) = Returned () →
  pause w fl c k = Returned (backoff_value c k).
Proof.
  intros Hk Hsleep. unfold pause, _get_backoff.
  destruct (Z.leb_spec 1024 (k - 1)); [lia|].
  cbn [mbind result_bind]. by rewrite Hsleep.
Qed.

Lemma pause_value w fl c k d :
  pause w fl c k = Returned d → d = backoff_value c k.
Proof.
  unfold pause, _get_backoff. destruct (1024 <=? k - 1); [done|].
  cbn [mbind result_bind]. destruct (sleep w fl _); [|done].
  simpl. by intros [= <-].
Qed.

Lemma failed_run_step fl c a n :
  failed_run fl c a (S (S n))
  = Post a :: wait fl (backoff_value c a) :: failed_run fl c (a + 1) (S n).
Proof. done. Qed.

(** When the file opens at every remaining attempt, every remaining attempt
    ends in a caught exception and every wait can be taken, the loop runs
    all the attempts, waits between them and raises what the last one
    raised. *)
Lemma attempts_all_caught fl c w (failure : Z → exn) :
  ∀ (n : nat) (a : Z) last tr,
    a + Z.of_nat n = retries c →
    opens w a (retries c) →
    (∀ k, a ≤ k < retries c → pause w fl c k = Returned (backoff_value c k)) →
    (∀ k, a ≤ k ≤ retries c →
          try_body c (post w k) = Raised (failure k) ∧ caught (failure k) = true) →
    attempts fl c w (seqZ a (Z.of_nat (S n))) last tr
    = (Raised (failure (retries c)), tr ++ failed_run fl c a (S n)).
Proof.
  induction n as [|n IH]; intros a last tr Ha Hopen Hpause Hall.
  - assert (a = retries c) as -> by lia.
    destruct (Hall (retries c)) as [Hbody Hcaught]; [lia|].
    change (seqZ (retries c) (Z.of_nat 1)) with [retries c].
    cbn [attempts]. rewrite Hopen by lia. rewrite Hbody, Hcaught, Z.eqb_refl. done.
  - destruct (Hall a) as [Hbody Hcaught]; [lia|].
    rewrite seqZ_cons by lia.
    replace (Z.pred (Z.of_nat (S (S n)))) with (Z.of_nat (S n)) by lia.
    cbn [attempts]. rewrite Hopen by lia. rewrite Hbody, Hcaught.
    destruct (Z.eqb_spec a (retries c)) as [Heq|_]; [lia|].
    rewrite Hpause by lia.
    rewrite (IH (Z.succ a)); [| lia | intros k Hk; apply Hopen; lia
                              | intros k Hk; apply Hpause; lia
                              | intros k Hk; apply Hall; lia].
    f_equal. rewrite <- !app_assoc, failed_run_step. simpl.
    by replace (a + 1) with (Z.succ a) by lia.
Qed.

Lemma failed_run_posts fl c a n : length (List.filter is_post (failed_run fl c a n)) = n.
Proof.
  revert a. induction n as [|[|n] IH]; intros a; [done..|].
  rewrite failed_run_step.
  destruct fl; cbn [List.filter is_post wait length]; by rewrite IH.
Qed.

Lemma failed_run_sleeps fl c a n : length (List.filter is_sleep (failed_run fl c a (S n))) = n.
Proof.
  revert a. induction n as [|n IH]; intros a; [done|].
  rewrite failed_run_step.
  destruct fl; cbn [List.filter is_sleep wait length]; by rewrite IH.
Qed.

Lemma failed_run_last fl c a n :
  last (failed_run fl c a (S n)) = Some (Post (a + Z.of_nat n)).
Proof.
  revert a. induction n as [|n IH]; intros a.
  - simpl. f_equal. f_equal. lia.
  - rewrite failed_run_step, !last_cons, IH. simpl. f_equal. f_equal. lia.
Qed.

(** C4 (as amended).  A client with at least three attempts whose image
    file opens at each of them, and whose two waits are finite floats that
    the sleep accepts, that meets two retryable failures and then a success
    returns the success payload after exactly three posts and exactly two
    waits: [backoff_factor * 2^0] before the second attempt and
    [backoff_factor * 2^1] before the third. *)
Theorem predict_two_failures_then_success
    fl retries_arg backoff statuses w image_path payload :
  let c := init retries_arg backoff statuses in
  3 ≤ retries c →
  path_exists w image_path = true →
  opens w 1 3 →
  sleeps w fl c 1 2 →
  retryable_failure c (post w 1) →
  retryable_failure c (post w 2) →
  success c (post w 3) payload →
  predict_with fl c w image_path
  = (Returned payload,
     [ Post 1; wait fl (backoff * inject_Z (2 ^ 0))%Q;
       Post 2; wait fl (backoff * inject_Z (2 ^ 1))%Q;
       Post 3 ]).
Proof.
  intros c Hthree Hexists Hopen Hsleeps Hf1 Hf2 Hok.
  destruct (Hsleeps 1 ltac:(lia)) as [_ Hs1].
  destruct (Hsleeps 2 ltac:(lia)) as [_ Hs2].
  unfold predict_with, py_range. rewrite Hexists. simpl negb. cbv iota.
  destruct (try_body_retryable c _ Hf1) as [Hb1 Hc1].
  destruct (try_body_retryable c _ Hf2) as [Hb2 Hc2].
  pose proof (try_body_success c _ _ Hok) as Hb3.
  pose proof (pause_returns w fl c 1 ltac:(lia) Hs1) as Hp1.
  pose proof (pause_returns w fl c 2 ltac:(lia) Hs2) as Hp2.
  rewrite (seqZ_cons 1) by lia.
  rewrite (seqZ_cons (Z.succ 1)) by lia.
  rewrite (seqZ_cons (Z.succ (Z.succ 1))) by lia.
  change (Z.succ 1) with 2. change (Z.succ 2) with 3.
  cbn [attempts]. rewrite !Hopen by lia. rewrite Hb1, Hc1.
  destruct (Z.eqb_spec 1 (retries c)); [lia|].
  rewrite Hp1, Hb2, Hc2.
  destruct (Z.eqb_spec 2 (retries c)); [lia|].
  rewrite Hp2, Hb3. reflexivity.
Qed.

(** C5 (as amended).  Given [retries] consecutive retryable failures,
    with the image file opening at every attempt, at most 1025 attempts and
    every wait a finite float that the sleep accepts, the call raises after
    exactly [retries] posts and [retries - 1] waits, its last action is the
    final post, and what it raises is the failure of that final attempt
    itself. *)
Theorem predict_exhausts_attempt_budget
    fl retries_arg backoff statuses w image_path :
  let c := init retries_arg backoff statuses in
  let tr := failed_run fl c 1 (Z.to_nat (retries c)) in
  path_exists w image_path = true →
  opens w 1 (retries c) →
  retries c ≤ 1025 →
  sleeps w fl c 1 (retries c - 1) →
  (∀ k, 1 ≤ k ≤ retries c → retryable_failure c (post w k)) →
  predict_with fl c w image_path = (Raised (failure_of (post w (retries c))), tr) ∧
  Z.of_nat (length (List.filter is_post tr)) = retries c ∧
  Z.of_nat (length (List.filter is_sleep tr)) = retries c - 1 ∧
  last tr = Some (Post (retries c)).
Proof.
  intros c tr Hexists Hopen Hmax Hsleep Hall.
  assert (1 ≤ retries c) as Hpos by (simpl; lia).
  assert (∃ n, Z.to_nat (retries c) = S n ∧ 1 + Z.of_nat n = retries c)
    as (n & Hn & Hsum) by (exists (Z.to_nat (retries c - 1)); lia).
  subst tr. rewrite Hn. repeat split.
  - unfold predict_with, py_range. rewrite Hexists. simpl negb. cbv iota.
    replace (retries c + 1 - 1) with (Z.of_nat (S n)) by lia.
    rewrite (attempts_all_caught fl c w (λ k, failure_of (post w k)) n 1); [done..| |].
    + intros k Hk. apply pause_returns; [lia | apply Hsleep; lia].
    + intros k Hk. by apply try_body_retryable, Hall.
  - rewrite failed_run_posts. lia.
  - rewrite failed_run_sleeps. lia.
  - rewrite failed_run_last. do 2 f_equal. lia.
Qed.

(** C1.  The code does not stop at a status error outside the retry set:
    [raise_for_status] raises an [HTTPStatusError], which the same [except]
    clause catches.  With the default client (three attempts, retry set
    429/500/502/503/504) and a server that always answers 404, the call
    posts three times and waits twice before it raises. *)
Theorem predict_retries_status_outside_retry_set fl :
  let c := init 3 (1 # 2) None in
  (404 ∉ retry_statuses c) ∧
  predict_with fl c not_found_server "img.jpg"
  = (Raised (HTTPStatusError "404 Error" 404),
     [ Post 1; wait fl (backoff_value c 1);
       Post 2; wait fl (backoff_value c 2);
       Post 3 ]).
Proof.
  split.
  - apply (bool_decide_eq_false_1 (404 ∈ DEFAULT_RETRY_STATUSES)). by vm_compute.
  - destruct fl; by vm_compute.
Qed.

End HttpProperties.

(** C4 as stated fails: with a negative backoff
    factor the first wait is refused by [time.sleep], and the call ends
    after one post with that error, although the first two attempts fail
    retryably and the third would succeed. *)
Lemma predict_negative_backoff_stops_after_one_post :
  let c := Http.init 3 (-1 # 2) None in
  3 ≤ Http.retries c ∧
  Http.retryable_failure c (Http.post Http.flaky_server 1) ∧
  Http.retryable_failure c (Http.post Http.flaky_server 2) ∧
  Http.success c (Http.post Http.flaky_server 3) (VDict [("ok", VBool true)]) ∧
  Http.predict (H := posix_paths) c Http.flaky_server "img.jpg"
  = (Raised (ValueError "sleep length must be non-negative"), [ Http.Post 1 ]).
Proof.
  split; [simpl; lia|].
  split; [apply (bool_decide_eq_true_1 (503 ∈ Http.DEFAULT_RETRY_STATUSES)); by vm_compute|].
  split; [apply (bool_decide_eq_true_1 (503 ∈ Http.DEFAULT_RETRY_STATUSES)); by vm_compute|].
  split; [|by vm_compute].
  split; [simpl; lia|]. split; [|reflexivity].
  apply (bool_decide_eq_false_1 (200 ∈ Http.DEFAULT_RETRY_STATUSES)). by vm_compute.
Qed.

Lemma predict_two_failures_then_success_witness :
  Http.predict (H := posix_paths) (Http.init 4 (1 # 100) None) Http.flaky_server "img.jpg"
  = (Returned (VDict [("ok", VBool true)]),
     [ Http.Post 1; Http.TimeSleep ((1 # 100) * inject_Z (2 ^ 0))%Q;
       Http.Post 2; Http.TimeSleep ((1 # 100) * inject_Z (2 ^ 1))%Q;
       Http.Post 3 ]).
Proof.
  apply (predict_two_failures_then_success (H := posix_paths)
           Http.Sync 4 (1 # 100) None Http.flaky_server "img.jpg").
  - simpl. lia.
  - reflexivity.
  - intros k _. reflexivity.
  - intros k Hk. assert (k = 1 ∨ k = 2) as [-> | ->] by lia; by vm_compute.
  - apply (bool_decide_eq_true_1 (503 ∈ Http.DEFAULT_RETRY_STATUSES)). by vm_compute.
  - apply (bool_decide_eq_true_1 (503 ∈ Http.DEFAULT_RETRY_STATUSES)). by vm_compute.
  - split; [simpl; lia|]. split; [|reflexivity].
    apply (bool_decide_eq_false_1 (200 ∈ Http.DEFAULT_RETRY_STATUSES)). by vm_compute.
Defined.

(** C5 as stated fails: the power of two of the
    1025th wait does not convert to a float, so a client with 1030 attempts
    against a server that is down stops after 1025 posts, with an
    [OverflowError] and not with the failure of a final attempt. *)
Lemma predict_overflow_stops_before_budget :
  let c := Http.init 1030 (1 # 2) None in
  Http.retries c = 1030 ∧
  Http.predict_async (H := posix_paths) c Http.dead_server "img.jpg"
  = (Raised (OverflowError "int too large to convert to float"),
     Http.failed_run Http.Async c 1 1025).
Proof. split; [reflexivity | by vm_compute]. Qed.

Lemma predict_exhausts_attempt_budget_witness :
  let c := Http.init 3 (1 # 100) None in
  let tr := Http.failed_run Http.Sync c 1 3 in
  Http.predict (H := posix_paths) c Http.dead_server "img.jpg"
  = (Raised (RequestError "always fail"), tr) ∧
  Z.of_nat (length (List.filter Http.is_post tr)) = 3 ∧
  Z.of_nat (length (List.filter Http.is_sleep tr)) = 3 - 1 ∧
  last tr = Some (Http.Post 3).
Proof.
  apply (predict_exhausts_attempt_budget (H := posix_paths)
           Http.Sync 3 (1 # 100) None Http.dead_server "img.jpg").
  - reflexivity.
  - intros k _. reflexivity.
  - simpl. lia.
  - intros k Hk. simpl in Hk.
    assert (k = 1 ∨ k = 2) as [-> | ->] by lia; by vm_compute.
  - intros k _. by exists "always fail".
Defined.

(* --------------------------------------------------------------------- *)
(** ** format_detections *)
(* --------------------------------------------------------------------- *)

Section PostprocessProperties.
Import Postprocess.

Lemma detection_four names b s c :
  (4 ≤ length b)%nat → detection names b s c = Returned (nth_detection names b s c).
Proof.
  destruct b as [|x1 [|y1 [|x2 [|y2 rest]]]]; simpl; intros Hlen; try lia.
  reflexivity.
Qed.

Lemma format_loop_spec names :
  ∀ boxes scores classes out,
    let n := Nat.min (length boxes) (Nat.min (length scores) (length classes)) in
    Forall (λ b, 4 ≤ length b)%nat (take n boxes) →
    ∃ ds, format_loop names boxes scores classes out = Returned (out ++ ds) ∧
          length ds = n ∧
          ∀ i b s c, boxes !! i = Some b → scores !! i = Some s → classes !! i = Some c →
                     ds !! i = Some (nth_detection names b s c).
Proof.
  induction boxes as [|b boxes IH]; intros [|s scores] [|c classes] out n Hfour;
    try (exists []; rewrite app_nil_r; split; [done|]; split; [done|];
         by intros i ? ? ? ?; rewrite ?lookup_nil).
  subst n. simpl in Hfour. apply Forall_cons in Hfour as [Hb Hrest].
  cbn [format_loop]. rewrite (detection_four _ _ _ _ Hb). cbn [mbind result_bind].
  destruct (IH scores classes (out ++ [nth_detection names b s c]) Hrest)
    as (ds & Hloop & Hlen & Hnth).
  exists (nth_detection names b s c :: ds).
  rewrite Hloop, <- app_assoc. split; [done|]. split; [by simpl; rewrite Hlen|].
  intros [|i] b' s' c'; simpl.
  - by intros [= <-] [= <-] [= <-].
  - apply Hnth.
Qed.


End PostprocessProperties.



(* --------------------------------------------------------------------- *)
(** ** StubModel *)
(* --------------------------------------------------------------------- *)

Section ModelProperties.
Context `{Pathlib}.
Import Model.

(** C9.  For every path the stub's [infer] returns a dict with exactly the
    keys image, width, height, detections, model, whose detections are the
    empty list and whose model.mode is "dry-run". *)
Theorem StubModel_infer_schema image_path :
  let r := StubModel_infer image_path in
  dict_keys r = ["image"; "width"; "height"; "detections"; "model"] ∧
  dict_get "detections" r = Some (VList []) ∧
  dict_get "model" r ≫= dict_get "mode" = Some (VStr "dry-run").
Proof. by repeat split. Qed.

End ModelProperties.

(* --------------------------------------------------------------------- *)
(** ** YolovXAdapter.load and get_model *)
(* --------------------------------------------------------------------- *)

Section LoaderProperties.
Import Loader.

(** C2 (as amended).  With the detector library present: weights that exist
    and build a detector give mode "inference"; absent, empty or missing
    weights give "no-weights"; weights that exist but make the detector's
    construction raise give "no-weights" too.  Mode "dry-run" is what a
    failed import of the library gives. *)
Theorem load_mode E self weights_path :
  (∀ ul d,
      ultralytics E = Returned ul →
      truthy weights_path = true →
      os_path_exists E (default "" weights_path) = true →
      YOLO ul weights_path = Returned d →
      mode (load E self weights_path) = "inference") ∧
  (∀ ul,
      ultralytics E = Returned ul →
      truthy weights_path && os_path_exists E (default "" weights_path) = false →
      mode (load E self weights_path) = "no-weights") ∧
  (∀ ul e,
      ultralytics E = Returned ul →
      truthy weights_path = true →
      os_path_exists E (default "" weights_path) = true →
      YOLO ul weights_path = Raised e →
      mode (load E self weights_path) = "no-weights") ∧
  (∀ e,
      ultralytics E = Raised e →
      mode (load E self weights_path) = "dry-run").
Proof.
  unfold load. repeat split.
  - intros ul d -> -> -> ->. done.
  - intros ul -> ->. by destruct (YOLO ul None).
  - intros ul e -> -> -> ->. done.
  - intros e ->. done.
Qed.

Lemma prefix_contains sub s : String.prefix sub s = true → contains sub s = true.
Proof. intros Hp. destruct s; cbn [contains]; by rewrite Hp. Qed.

Lemma prefix_yolovx_yolov s : String.prefix "yolovx" s = true → String.prefix "yolov" s = true.
Proof.
  do 5 (destruct s as [|? s]; cbn [String.prefix]; [done|];
        destruct (Ascii.ascii_dec _ _); [|done]).
  by destruct s.
Qed.

Lemma contains_yolovx_yolov s : contains "yolovx" s = true → contains "yolov" s = true.
Proof.
  induction s as [|a s IH].
  - done.
  - cbn [contains]. intros [Hp|Hrest]%orb_true_iff; apply orb_true_iff.
    + left. by apply prefix_yolovx_yolov.
    + right. by apply IH.
Qed.

(** An adapter name that neither starts with "yolo" nor contains "yolov"
    selects the stub. *)
Lemma chosen_stub a :
  startswith a "yolo" = false → contains "yolov" a = false → chosen a = "stub".
Proof.
  intros Hyolo Hyolov. unfold chosen. rewrite Hyolo, Hyolov.
  destruct (startswith a "yolov") eqn:Hp.
  { apply prefix_contains in Hp. congruence. }
  destruct (contains "yolovx" a) eqn:Hc.
  { apply contains_yolovx_yolov in Hc. congruence. }
  simpl.
  destruct (String.eqb_spec a "yolovx") as [->|_]; [done|].
  destruct (String.eqb_spec a "yolox") as [->|_]; [done|].
  done.
Qed.

(** C10.  [get_model] returns a model instance for every adapter and
    weights argument, whatever the normalisation of the weights path or
    the model's [load] raise; an adapter name that is no yolo variant gives
    the stub. *)
Theorem get_model_total E adapter weights :
  ∃ m,
    get_model E adapter weights = Returned m ∧
    (let name := lower (if truthy adapter then default "" adapter else "stub") in
     startswith name "yolo" = false → contains "yolov" name = false →
     m = StubModel).
Proof.
  unfold get_model, get_model_io.
  destruct (BaseModel_load E _ _) as [[m raised] printed] eqn:Hload.
  exists m. split; [done|].
  intros Hyolo Hyolov.
  rewrite (chosen_stub _ Hyolo Hyolov) in Hload.
  simpl in Hload. unfold BaseModel_load in Hload.
  by destruct (Model.StubModel_load _ _) as [[] ?]; injection Hload as <- _ _.
Qed.

End LoaderProperties.

Lemma load_mode_witness :
  Loader.mode (Loader.load Loader.env_ok Loader.new (Some "/models/yolov8n.pt")) = "inference" ∧
  Loader.mode (Loader.load Loader.env_ok Loader.new (Some "/models/missing.pt")) = "no-weights" ∧
  Loader.mode (Loader.load Loader.env_bad_weights Loader.new (Some "/models/yolov8n.pt"))
  = "no-weights" ∧
  Loader.mode (Loader.load Loader.env_no_library Loader.new (Some "/models/yolov8n.pt"))
  = "dry-run".
Proof.
  split; [|split; [|split]].
  - by eapply (proj1 (load_mode Loader.env_ok Loader.new (Some "/models/yolov8n.pt"))).
  - by eapply (proj1 (proj2 (load_mode Loader.env_ok Loader.new (Some "/models/missing.pt")))).
  - by eapply (proj1 (proj2 (proj2
                 (load_mode Loader.env_bad_weights Loader.new (Some "/models/yolov8n.pt"))))).
  - by eapply (proj2 (proj2 (proj2
                 (load_mode Loader.env_no_library Loader.new (Some "/models/yolov8n.pt"))))).
Defined.

(** C2 as stated fails: the library is present, the weights file exists and
    the detector's construction raises, and the mode is "no-weights", not
    "dry-run". *)
Lemma load_failed_construction_is_not_dry_run :
  let E := Loader.env_bad_weights in
  let weights := Some "/models/yolov8n.pt" in
  (∃ ul e, Loader.ultralytics E = Returned ul ∧
           Loader.os_path_exists E "/models/yolov8n.pt" = true ∧
           Loader.YOLO ul weights = Raised e) ∧
  Loader.mode (Loader.load E Loader.new weights) = "no-weights" ∧
  Loader.mode (Loader.load E Loader.new weights) ≠ "dry-run".
Proof.
  split; [|split].
  - by eexists _, _.
  - reflexivity.
  - discriminate.
Qed.

Lemma get_model_total_witness :
  (∃ m, Loader.get_model Loader.env_closed_stdout (Some "ResNet") (Some "~nobody/w.pt")
        = Returned m ∧ m = Loader.StubModel) ∧
  (Loader.BaseModel_load Loader.env_closed_stdout Loader.StubModel (Some "~nobody/w.pt")).1.2
  = Some (ValueError "I/O operation on closed file.").
Proof.
  split; [|reflexivity].
  destruct (get_model_total Loader.env_closed_stdout (Some "ResNet") (Some "~nobody/w.pt"))
    as (m & Hm & Hstub).
  exists m. split; [exact Hm|]. by apply Hstub.
Defined.

(* --------------------------------------------------------------------- *)
(** ** The upload handler *)
(* --------------------------------------------------------------------- *)

Section MainProperties.
Context `{Pathlib}.
Import Main.

Lemma read_spec st :
  ∃ n, (0 < n)%nat ∧
       read chunk_size st
       = (take n (unread st),
          {| fs := fs st; unread := drop n (unread st);
             closed := closed st; log := log st ++ [Read chunk_size] |}).
Proof. exists (Z.to_nat chunk_size). split; [unfold chunk_size; lia | done]. Qed.

Lemma written_app path l1 l2 :
  written path (l1 ++ l2) = written path l1 ++ written path l2.
Proof.
  induction l1 as [|e l1 IH]; [done|].
  destruct e; simpl; try done.
  destruct (String.eqb _ _); [|done]. by rewrite IH, app_assoc.
Qed.

Lemma written_write path chunk : written path [Write path chunk] = chunk.
Proof. simpl. by rewrite String.eqb_refl, app_nil_r. Qed.

(** A body within the limit is written out whole, and only [path] changes. *)
Lemma write_loop_finished path limit :
  ∀ fuel uploaded st content,
    (length (unread st) < fuel)%nat →
    fs st !! path = Some content →
    uploaded + Z.of_nat (length (unread st)) ≤ limit →
    ∃ st', write_loop fuel limit path uploaded st = (Finished, st') ∧
           fs st' !! path = Some (content ++ unread st) ∧
           closed st' = closed st.
Proof.
  induction fuel as [|fuel IH]; intros uploaded st content Hfuel Hpath Hlimit; [lia|].
  cbn [write_loop]. destruct (read_spec st) as (n & Hn & ->).
  destruct (unread st) as [|b rest] eqn:Hunread.
  - rewrite take_nil. eexists. split; [done|]. simpl. by rewrite app_nil_r.
  - destruct n as [|n]; [lia|]. cbn [take drop].
    simpl length in *.
    assert (length (take n rest) + length (drop n rest) = length rest)%nat as Hsplit
      by (rewrite <- length_app, take_drop; done).
    destruct (Z.ltb_spec limit (uploaded + Z.of_nat (S (length (take n rest))))); [lia|].
    edestruct (IH (uploaded + Z.of_nat (S (length (take n rest))))
                  (write path (b :: take n rest)
                     {| fs := fs st; unread := drop n rest; closed := closed st;
                        log := log st ++ [Read chunk_size] |})
                  (content ++ b :: take n rest))
      as (st' & Hloop & Hfs & Hclosed).
    + simpl. lia.
    + simpl. by rewrite lookup_alter_eq, Hpath.
    + simpl. lia.
    + exists st'. split; [exact Hloop|]. split; [|exact Hclosed].
      rewrite Hfs. simpl. f_equal. rewrite <- app_assoc. simpl.
      by rewrite take_drop.
Qed.

(** A body over the limit ends the loop with the file deleted; what was
    written before is a prefix of the body that fits the limit. *)
Lemma write_loop_too_large path limit :
  ∀ fuel uploaded st content,
    (length (unread st) < fuel)%nat →
    fs st !! path = Some content →
    uploaded ≤ limit →
    limit < uploaded + Z.of_nat (length (unread st)) →
    ∃ st' kept rest,
      write_loop fuel limit path uploaded st = (TooLarge, st') ∧
      fs st' !! path = None ∧
      closed st' = closed st ∧
      written path (log st') = written path (log st) ++ kept ∧
      unread st = kept ++ rest ∧
      uploaded + Z.of_nat (length kept) ≤ limit.
Proof.
  induction fuel as [|fuel IH]; intros uploaded st content Hfuel Hpath Hle Hover; [lia|].
  cbn [write_loop]. destruct (read_spec st) as (n & Hn & ->).
  destruct (unread st) as [|b rest] eqn:Hunread; [simpl in Hover; lia|].
  destruct n as [|n]; [lia|]. cbn [take drop].
  simpl length in *.
  assert (length (take n rest) + length (drop n rest) = length rest)%nat as Hsplit
    by (rewrite <- length_app, take_drop; done).
  destruct (Z.ltb_spec limit (uploaded + Z.of_nat (S (length (take n rest))))) as [Hbig|Hfit].
  - exists (unlink_if_present path
              (emit (CloseFile path)
                 {| fs := fs st; unread := drop n rest; closed := closed st;
                    log := log st ++ [Read chunk_size] |})), [], (b :: rest).
    split; [done|]. unfold unlink_if_present, unlink. simpl. rewrite Hpath. simpl.
    split; [apply lookup_delete_eq|]. split; [done|].
    split; [|split; [done|lia]].
    rewrite !written_app. simpl. by rewrite !app_nil_r.
  - edestruct (IH (uploaded + Z.of_nat (S (length (take n rest))))
                  (write path (b :: take n rest)
                     {| fs := fs st; unread := drop n rest; closed := closed st;
                        log := log st ++ [Read chunk_size] |})
                  (content ++ b :: take n rest))
      as (st' & kept & tail & Hloop & Hfs & Hclosed & Hwritten & Hkept & Hlen).
    + simpl. lia.
    + simpl. by rewrite lookup_alter_eq, Hpath.
    + lia.
    + simpl. lia.
    + exists st', (b :: take n rest ++ kept), tail.
      split; [exact Hloop|]. split; [exact Hfs|]. split; [exact Hclosed|].
      simpl in Hkept, Hwritten. split; [|split].
      * rewrite Hwritten. rewrite !written_app, written_write.
        simpl. rewrite app_nil_r. by rewrite <- !app_assoc.
      * simpl. f_equal. rewrite <- app_assoc, <- Hkept. by rewrite take_drop.
      * simpl length. rewrite length_app. simpl length in Hlen. lia.
Qed.

(** The fuel the handler gives the loop is enough. *)
Lemma write_loop_fuel path limit :
  ∀ fuel uploaded st,
    (length (unread st) < fuel)%nat →
    fst (write_loop fuel limit path uploaded st) ≠ OutOfFuel.
Proof.
  induction fuel as [|fuel IH]; intros uploaded st Hfuel; [lia|].
  cbn [write_loop]. destruct (read_spec st) as (n & Hn & ->).
  destruct (unread st) as [|b rest] eqn:Hunread.
  - by rewrite take_nil.
  - destruct n as [|n]; [lia|]. cbn [take drop].
    destruct (_ <? _); [done|].
    apply IH. simpl in *. rewrite length_drop. lia.
Qed.

Lemma after_write_total A path st : after_write A path st ≠ None.
Proof.
  unfold after_write. destruct (negb _); [done|]. destruct (MODEL A); [|done].
  by destruct (_ ≫= _).
Qed.

Lemma predict_total A token file files : predict A token file files ≠ None.
Proof.
  unfold predict. destruct (negb _); [done|].
  destruct (mkdir_error A _); [done|]. destruct (open_error A _); [done|].
  pose proof (write_loop_fuel (upload_path A token file) (MAX_UPLOAD_SIZE A)
                (S (length (unread (open_wb (upload_path A token file)
                                      (emit (Mkdir (UPLOAD_DIR A)) (initial files file))))))
                0 _ (Nat.lt_succ_diag_r _)) as Hfuel.
  destruct (write_loop _ _ _ _ _) as [[] st]; [| |done].
  - apply after_write_total.
  - done.
Qed.

Lemma allowed_content_type file :
  lower (default "" (content_type file)) ∈ ALLOWED_CONTENT_TYPES →
  negb (bool_decide (lower (default "" (content_type file)) ∈ ALLOWED_CONTENT_TYPES)) = false.
Proof. intros Hin. by rewrite bool_decide_eq_true_2. Qed.

(** The handler once the content type is allowed, the directory made and
    the file opened: the loop, then the rest. *)
Lemma predict_opened A token file files :
  let path := upload_path A token file in
  let st := open_wb path (emit (Mkdir (UPLOAD_DIR A)) (initial files file)) in
  lower (default "" (content_type file)) ∈ ALLOWED_CONTENT_TYPES →
  mkdir_error A (UPLOAD_DIR A) = None →
  open_error A path = None →
  predict A token file files
  = match write_loop (S (length (unread st))) (MAX_UPLOAD_SIZE A) path 0 st with
    | (OutOfFuel, _) => None
    | (TooLarge, st) => Some (HTTPException 413 "file too large", close_upload st)
    | (Finished, st) => after_write A path st
    end.
Proof.
  intros path st Hallowed Hmkdir Hopen. unfold predict.
  rewrite (allowed_content_type file Hallowed), Hmkdir. cbv iota zeta.
  fold path. by rewrite Hopen.
Qed.

(** C6.  An upload whose lowercased content type is not one of image/jpeg,
    image/png, image/webp is answered with 400 before anything else
    happens: no byte of the body is read, no file is opened, and the
    files on disk are what they were. *)
Theorem predict_unsupported_content_type A token file files :
  lower (default "" (content_type file)) ∉ ALLOWED_CONTENT_TYPES →
  ∃ detail st,
    predict A token file files = Some (HTTPException 400 detail, st) ∧
    fs st = files ∧
    unread st = body file ∧
    log st = [].
Proof.
  intros Hnot. unfold predict. rewrite bool_decide_eq_false_2 by done. simpl.
  by eexists _, _.
Qed.

(** C3 (as amended).  An upload of an allowed content type whose
    body is longer than the ceiling, when the upload directory can be made
    and the file opened, is answered with 413, and afterwards the file it
    was being saved to does not exist.  The bytes written before the
    deletion are a prefix of the body no longer than the ceiling, so the
    chunk that crossed it was not written; and the deletion step leaves the
    files as they are, without raising, when the file is already gone. *)
Theorem predict_too_large A token file files :
  let path := upload_path A token file in
  lower (default "" (content_type file)) ∈ ALLOWED_CONTENT_TYPES →
  mkdir_error A (UPLOAD_DIR A) = None →
  open_error A path = None →
  0 ≤ MAX_UPLOAD_SIZE A →
  MAX_UPLOAD_SIZE A < Z.of_nat (length (body file)) →
  ∃ st,
    predict A token file files = Some (HTTPException 413 "file too large", st) ∧
    status_of (HTTPException 413 "file too large") = 413 ∧
    fs st !! path = None ∧
    (∃ rest, body file = written path (log st) ++ rest ∧
             Z.of_nat (length (written path (log st))) ≤ MAX_UPLOAD_SIZE A) ∧
    (∀ st0, fs st0 !! path = None →
            unlink path (fs st0) = Raised (FileNotFoundError path) ∧
            fs (unlink_if_present path st0) = fs st0).
Proof.
  intros path Hallowed Hmkdir Hopen Hmax Hover.
  rewrite (predict_opened A token file files Hallowed Hmkdir Hopen). fold path.
  edestruct (write_loop_too_large path (MAX_UPLOAD_SIZE A)
               (S (length (unread (open_wb path (emit (Mkdir (UPLOAD_DIR A))
                                                    (initial files file))))))
               0 (open_wb path (emit (Mkdir (UPLOAD_DIR A)) (initial files file))) [])
    as (st' & kept & rest & Hloop & Hfs & _ & Hwritten & Hkept & Hlen).
  - lia.
  - simpl. apply lookup_insert_eq.
  - lia.
  - simpl. lia.
  - rewrite Hloop. exists (close_upload st').
    split; [done|]. split; [done|]. split; [exact Hfs|]. split.
    + simpl in Hwritten, Hkept. simpl log. rewrite written_app. simpl.
      rewrite app_nil_r, Hwritten. exists rest. split; [done|]. lia.
    + intros st0 Hgone. unfold unlink_if_present, unlink. by rewrite Hgone.
Qed.


End MainProperties.

Lemma jpeg_is_allowed payload :
  lower (default "" (Main.content_type (Main.jpeg payload))) ∈ Main.ALLOWED_CONTENT_TYPES.
Proof. apply (bool_decide_eq_true_1 _). by vm_compute. Qed.

Lemma png_is_allowed payload :
  lower (default "" (Main.content_type (Main.png payload))) ∈ Main.ALLOWED_CONTENT_TYPES.
Proof. apply (bool_decide_eq_true_1 _). by vm_compute. Qed.

(** C3 as stated fails: the client chooses the
    file name, and a name too long for the file system makes the handler's
    [open] raise before the first byte is read.  The upload is over the
    ceiling and of an allowed type, and the answer is 500, not 413. *)
Lemma predict_long_name_is_500 :
  let file := {| Main.content_type := Some "image/jpeg";
                 Main.filename := Some (Main.long_name 300);
                 Main.body := [xff; xd8; x00; x00; x00; x00; x00; xff; xd9] |} in
  lower (default "" (Main.content_type file)) ∈ Main.ALLOWED_CONTENT_TYPES ∧
  Main.MAX_UPLOAD_SIZE Main.tiny_app < Z.of_nat (length (Main.body file)) ∧
  ∃ msg st,
    Main.predict (H := posix_paths) Main.tiny_app "0f3a" file ∅
    = Some (Main.InternalServerError (OSError msg), st) ∧
    Main.status_of (Main.InternalServerError (OSError msg)) = 500 ∧
    Main.unread st = Main.body file.
Proof.
  split; [apply (bool_decide_eq_true_1 _); by vm_compute|].
  split; [by vm_compute|].
  eexists _, _. split; [by vm_compute|]. by split.
Qed.

Lemma predict_too_large_witness :
  let file := Main.jpeg [xff; xd8; x00; x00; x00; x00; x00; xff; xd9] in
  let path := Main.upload_path (H := posix_paths) Main.tiny_app "0f3a" file in
  ∃ st,
    Main.predict (H := posix_paths) Main.tiny_app "0f3a" file ∅
    = Some (Main.HTTPException 413 "file too large", st) ∧
    Main.status_of (Main.HTTPException 413 "file too large") = 413 ∧
    Main.fs st !! path = None ∧
    (∃ rest, Main.body file = Main.written path (Main.log st) ++ rest ∧
             Z.of_nat (length (Main.written path (Main.log st))) ≤ 8) ∧
    (∀ st0, Main.fs st0 !! path = None →
            Main.unlink path (Main.fs st0) = Raised (FileNotFoundError path) ∧
            Main.fs (Main.unlink_if_present path st0) = Main.fs st0).
Proof.
  apply (predict_too_large (H := posix_paths) Main.tiny_app "0f3a"
           (Main.jpeg [xff; xd8; x00; x00; x00; x00; x00; xff; xd9]) ∅).
  - apply jpeg_is_allowed.
  - reflexivity.
  - reflexivity.
  - simpl. lia.
  - simpl. lia.
Defined.

Lemma predict_unsupported_content_type_witness :
  let file := {| Main.content_type := Some "Image/GIF";
                 Main.filename := Some "anim.gif";
                 Main.body := [x47; x49; x46] |} in
  ∃ detail st,
    Main.predict (H := posix_paths) (Main.default_app Main.verify_example) "0f3a" file ∅
    = Some (Main.HTTPException 400 detail, st) ∧
    Main.fs st = ∅ ∧
    Main.unread st = Main.body file ∧
    Main.log st = [].
Proof.
  apply (predict_unsupported_content_type (H := posix_paths)).
  apply (bool_decide_eq_false_1 _). by vm_compute.
Defined.



(* ===================================================================== *)
(** * Part II, continued: further properties of the code *)
(* ===================================================================== *)

(* --------------------------------------------------------------------- *)
(** ** The retry loop *)
(* --------------------------------------------------------------------- *)

Section HttpCoverage.
Context `{Pathlib}.
Import Http.

Lemma try_body_failed c posted :
  failed_attempt c posted →
  ∃ e, try_body c posted = Raised e ∧ caught e = true ∧
       ∀ r, posted = Returned r → ∃ msg, e = HTTPStatusError msg (status_code r).
Proof.
  destruct posted as [r|e]; simpl.
  - intros Hfail. destruct (decide (status_code r ∈ retry_statuses c)) as [Hin|Hout].
    + rewrite bool_decide_eq_true_2 by done.
      eexists. split; [done|]. split; [done|]. intros ? [= <-]. by eexists.
    + rewrite bool_decide_eq_false_2 by done. destruct Hfail as [?|Hout2xx]; [done|].
      unfold raise_for_status.
      assert ((200 <=? status_code r) && (status_code r <? 300) = false) as ->.
      { apply andb_false_iff. destruct Hout2xx; [left|right]; lia. }
      eexists. split; [done|]. split; [done|]. intros ? [= <-]. by eexists.
  - intros [msg ->]. eexists. split; [done|]. split; [done|]. by intros r [=].
Qed.

Lemma try_body_fatal c posted e :
  fatal_attempt c posted e → try_body c posted = Raised e.
Proof.
  intros [_ Hposted]. destruct posted as [r|e']; simpl in *; [|by subst].
  destruct Hposted as (Hout & Hlow & Hjson).
  rewrite bool_decide_eq_false_2 by done. unfold raise_for_status.
  assert ((200 <=? status_code r) && (status_code r <? 300) = true) as ->; [|done].
  apply andb_true_iff. split; lia.
Qed.

Lemma attempt_exn_failed c posted :
  failed_attempt c posted →
  try_body c posted = Raised (attempt_exn c posted) ∧ caught (attempt_exn c posted) = true.
Proof.
  intros (e & Hbody & Hcaught & _)%try_body_failed.
  unfold attempt_exn. by rewrite Hbody.
Qed.

(** After [n] caught failures, with the file opening each time and the
    waits taken, an attempt that returns, or raises what the loop does not
    catch, ends the call there. *)
Lemma attempts_until fl c w (outcome : result value) :
  ∀ (n : nat) (a extra : Z) last tr,
    0 ≤ extra →
    a + Z.of_nat n + extra = retries c →
    opens w a (a + Z.of_nat n) →
    (∀ k, a ≤ k < a + Z.of_nat n → pause w fl c k = Returned (backoff_value c k)) →
    (∀ k, a ≤ k < a + Z.of_nat n → failed_attempt c (post w k)) →
    try_body c (post w (a + Z.of_nat n)) = outcome →
    match outcome with Returned _ => True | Raised e => caught e = false end →
    attempts fl c w (seqZ a (Z.of_nat (S n) + extra)) last tr
    = (outcome, tr ++ failed_run fl c a (S n)).
Proof.
  induction n as [|n IH]; intros a extra last tr Hextra Hsum Hopen Hpause Hfail Hbody Hends.
  - rewrite seqZ_cons by lia. cbn [attempts]. rewrite Hopen by lia.
    replace (a + Z.of_nat 0) with a in Hbody by lia. rewrite Hbody.
    destruct outcome as [v|e]; [done|]. by rewrite Hends.
  - destruct (attempt_exn_failed c (post w a)) as [Hb Hc]; [apply Hfail; lia|].
    rewrite seqZ_cons by lia. cbn [attempts]. rewrite Hopen by lia. rewrite Hb, Hc.
    destruct (Z.eqb_spec a (retries c)) as [Heq|_]; [lia|].
    rewrite Hpause by lia.
    replace (Z.pred (Z.of_nat (S (S n)) + extra)) with (Z.of_nat (S n) + extra) by lia.
    rewrite (IH (Z.succ a) extra);
      [| lia | lia | intros k Hk; apply Hopen; lia | intros k Hk; apply Hpause; lia
       | intros k Hk; apply Hfail; lia | | done].
    + f_equal. rewrite <- !app_assoc, failed_run_step. simpl.
      by replace (a + 1) with (Z.succ a) by lia.
    + by replace (Z.succ a + Z.of_nat n) with (a + Z.of_nat (S n)) by lia.
Qed.

Lemma failed_run_first fl c a n : [Post a] `prefix_of` failed_run fl c a (S n).
Proof.
  destruct n as [|n]; [done|]. rewrite failed_run_step. by eexists.
Qed.

(** Whatever the server, the file system and the clock do, the trace of the
    loop is an initial part of the trace of a run in which every attempt
    fails. *)
Lemma attempts_prefix fl c w :
  ∀ (n : nat) (a : Z) last tr,
    a + Z.of_nat n = retries c + 1 →
    ∃ ext, snd (attempts fl c w (seqZ a (Z.of_nat n)) last tr) = tr ++ ext ∧
           ext `prefix_of` failed_run fl c a n.
Proof.
  induction n as [|n IH]; intros a last tr Hsum.
  - exists []. by rewrite app_nil_r.
  - rewrite seqZ_cons by lia. cbn [attempts].
    replace (Z.pred (Z.of_nat (S n))) with (Z.of_nat n) by lia.
    destruct (open_error w a); [exists []; split; [by rewrite app_nil_r | apply prefix_nil]|].
    pose proof (failed_run_first fl c a n) as Hfirst.
    destruct (try_body c (post w a)) as [v|e]; [by exists [Post a]|].
    destruct (caught e); [|by exists [Post a]].
    destruct (Z.eqb_spec a (retries c)) as [Heq|Hneq]; [by exists [Post a]|].
    destruct (pause w fl c a) as [backoff|e'] eqn:Hpause; [|by exists [Post a]].
    apply pause_value in Hpause as ->.
    destruct n as [|n]; [lia|].
    destruct (IH (Z.succ a) (Some e) ((tr ++ [Post a]) ++ [wait fl (backoff_value c a)]))
      as (ext & -> & Hext); [lia|].
    exists (Post a :: wait fl (backoff_value c a) :: ext).
    split; [by rewrite <- !app_assoc|].
    rewrite failed_run_step. do 2 apply prefix_cons.
    by replace (a + 1) with (Z.succ a) by lia.
Qed.

Lemma predict_with_prefix fl c w image_path :
  1 ≤ retries c →
  snd (predict_with fl c w image_path) `prefix_of` failed_run fl c 1 (Z.to_nat (retries c)).
Proof.
  intros Hpos. unfold predict_with, py_range.
  destruct (path_exists w image_path); simpl negb; cbv iota; [|apply prefix_nil].
  destruct (attempts_prefix fl c w (Z.to_nat (retries c)) 1 None []) as (ext & Htr & Hext);
    [lia|].
  replace (retries c + 1 - 1) with (Z.of_nat (Z.to_nat (retries c))) by lia.
  by rewrite Htr.
Qed.

(** The loop only adds to the trace. *)
Lemma attempts_extends fl c w :
  ∀ rng last tr, ∃ ext, snd (attempts fl c w rng last tr) = tr ++ ext.
Proof.
  induction rng as [|a rng IH]; intros last tr; [exists []; by rewrite app_nil_r|].
  cbn [attempts].
  destruct (open_error w a); [exists []; by rewrite app_nil_r|].
  destruct (try_body c (post w a)) as [v|e]; [by eexists|].
  destruct (caught e); [|by eexists].
  destruct (a =? retries c); [by eexists|].
  destruct (pause w fl c a); [|by eexists].
  destruct (IH (Some e) ((tr ++ [Post a]) ++ [wait fl a0])) as [ext ->].
  rewrite <- !app_assoc. by eexists.
Qed.

(** In an initial part of such a trace there are at most as many posts as
    attempts, and no more sleeps than posts. *)
Lemma prefix_counts fl c :
  ∀ (n : nat) (a : Z) l,
    l `prefix_of` failed_run fl c a n →
    (length (List.filter is_post l) ≤ n)%nat ∧
    (length (List.filter is_sleep l) ≤ length (List.filter is_post l))%nat.
Proof.
  induction n as [|n IH]; intros a l Hl.
  - apply prefix_nil_inv in Hl as ->. done.
  - destruct l as [|x l]; [simpl; lia|].
    destruct n as [|n].
    + pose proof (prefix_cons_inv_1 _ _ _ _ Hl) as ->.
      apply prefix_cons_inv_2, prefix_nil_inv in Hl as ->. simpl. lia.
    + rewrite failed_run_step in Hl.
      pose proof (prefix_cons_inv_1 _ _ _ _ Hl) as ->.
      apply prefix_cons_inv_2 in Hl.
      destruct l as [|y l]; [simpl; lia|].
      pose proof (prefix_cons_inv_1 _ _ _ _ Hl) as ->.
      apply prefix_cons_inv_2, IH in Hl as [Hposts Hsleeps].
      destruct fl; cbn [List.filter is_post is_sleep wait length]; lia.
Qed.


(** X2.  The call returns at the first successful attempt: after [k - 1]
    failed attempts (network errors, or responses with a status in the
    retry set or outside 200..299) a success at attempt [k], within the
    budget, returns its payload after [k] posts and [k - 1] waits, provided
    the file opens at each of the [k] attempts, [k] is at most 1025 and
    each of the [k - 1] waits is a finite float that the sleep accepts. *)
Theorem predict_first_success fl retries_arg backoff statuses w image_path (k : nat) payload :
  let c := init retries_arg backoff statuses in
  path_exists w image_path = true →
  (1 ≤ k)%nat → Z.of_nat k ≤ retries c → Z.of_nat k ≤ 1025 →
  opens w 1 (Z.of_nat k) →
  sleeps w fl c 1 (Z.of_nat k - 1) →
  (∀ j, 1 ≤ j < Z.of_nat k → failed_attempt c (post w j)) →
  success c (post w (Z.of_nat k)) payload →
  predict_with fl c w image_path = (Returned payload, failed_run fl c 1 k).
Proof.
  intros c Hexists Hk Hbudget Hmax Hopen Hsleep Hfail Hok.
  unfold predict_with, py_range. rewrite Hexists. simpl negb. cbv iota.
  destruct k as [|n]; [lia|].
  replace (retries c + 1 - 1) with (Z.of_nat (S n) + (retries c - Z.of_nat (S n))) by lia.
  rewrite (attempts_until fl c w (Returned payload) n 1); [done | lia | lia | | | | | done].
  - intros j Hj. apply Hopen. lia.
  - intros j Hj. apply pause_returns; [lia | apply Hsleep; lia].
  - intros j Hj. apply Hfail. lia.
  - replace (1 + Z.of_nat n) with (Z.of_nat (S n)) by lia.
    by apply try_body_success.
Qed.

(** X3.  Every status outside 200..299 is retried, in the retry set or not:
    when each attempt of the budget gets such a response, the file opens at
    every attempt, the budget is at most 1025 and every wait is a finite
    float that the sleep accepts, the call posts [retries] times and then
    raises an [HTTPStatusError] carrying the status of the last response. *)
Theorem predict_retries_every_error_status fl retries_arg backoff statuses w image_path
    (responses : Z → Response) :
  let c := init retries_arg backoff statuses in
  path_exists w image_path = true →
  retries c ≤ 1025 →
  opens w 1 (retries c) →
  sleeps w fl c 1 (retries c - 1) →
  (∀ j, 1 ≤ j ≤ retries c →
        post w j = Returned (responses j) ∧
        (status_code (responses j) < 200 ∨ 300 ≤ status_code (responses j))) →
  ∃ msg,
    predict_with fl c w image_path
    = (Raised (HTTPStatusError msg (status_code (responses (retries c)))),
       failed_run fl c 1 (Z.to_nat (retries c))).
Proof.
  intros c Hexists Hmax Hopen Hsleep Hall.
  assert (1 ≤ retries c) as Hpos by (simpl; lia).
  unfold predict_with, py_range. rewrite Hexists. simpl negb. cbv iota.
  replace (retries c + 1 - 1) with (Z.of_nat (S (Z.to_nat (retries c - 1)))) by lia.
  rewrite (attempts_all_caught fl c w (λ j, attempt_exn c (post w j))
             (Z.to_nat (retries c - 1)) 1); [|lia|done| |].
  - destruct (Hall (retries c)) as [Hpost Hbig]; [lia|].
    destruct (try_body_failed c (post w (retries c))) as (e & Hbody & _ & Hstatus).
    { rewrite Hpost. simpl. by right. }
    destruct (Hstatus _ Hpost) as [msg ->].
    exists msg. unfold attempt_exn. rewrite Hbody, app_nil_l.
    by replace (S (Z.to_nat (retries c - 1))) with (Z.to_nat (retries c)) by lia.
  - intros j Hj. apply pause_returns; [lia | apply Hsleep; lia].
  - intros j Hj. apply attempt_exn_failed.
    destruct (Hall j) as [-> Hbig]; [lia|]. simpl. by right.
Qed.

(** X4.  An exception the loop does not catch ends the call at once,
    however many attempts remain: when the file opens and the first
    [client.post] raises something that is no httpx error, or its response
    has a status in 200..299 outside the retry set and a body that is not
    JSON, that exception is raised after one post and no wait. *)
Theorem predict_uncaught_exception_is_not_retried
    fl retries_arg backoff statuses w image_path e :
  let c := init retries_arg backoff statuses in
  path_exists w image_path = true →
  open_error w 1 = None →
  fatal_attempt c (post w 1) e →
  predict_with fl c w image_path = (Raised e, [Post 1]).
Proof.
  intros c Hexists Hopen Hfatal.
  unfold predict_with, py_range. rewrite Hexists. simpl negb. cbv iota.
  replace (retries c + 1 - 1) with (Z.of_nat 1 + (retries c - 1)) by lia.
  rewrite (attempts_until fl c w (Raised e) 0 1); [done | simpl; lia | lia | | | | | ].
  - intros j Hj. by replace j with 1 by lia.
  - intros j Hj. lia.
  - intros j Hj. lia.
  - by apply try_body_fatal.
  - by destruct Hfatal.
Qed.


Lemma waited_failed_run fl c :
  ∀ (n : nat) (a : Z),
    1 ≤ a →
    (waited (failed_run fl c a (S n))
     == backoff_factor c * inject_Z (2 ^ (a - 1) * (2 ^ Z.of_nat n - 1)))%Q.
Proof.
  induction n as [|n IH]; intros a Ha.
  - simpl. rewrite Z.mul_0_r. unfold inject_Z. ring.
  - rewrite failed_run_step.
    assert (waited (Post a :: wait fl (backoff_value c a) :: failed_run fl c (a + 1) (S n))
            = (backoff_value c a + waited (failed_run fl c (a + 1) (S n)))%Q) as ->
      by (by destruct fl).
    rewrite IH by lia. unfold backoff_value.
    rewrite <- Qmult_plus_distr_r, <- inject_Z_plus.
    replace (2 ^ (a - 1) + 2 ^ (a + 1 - 1) * (2 ^ Z.of_nat n - 1))
      with (2 ^ (a - 1) * (2 ^ Z.of_nat (S n) - 1)); [reflexivity|].
    replace (a + 1 - 1) with (Z.succ (a - 1)) by lia.
    rewrite Nat2Z.inj_succ, !Z.pow_succ_r by lia. ring.
Qed.

Lemma backoff_value_nonneg c a :
  (0 <= backoff_factor c)%Q → (0 <= backoff_value c a)%Q.
Proof.
  intros Hnonneg. unfold backoff_value. apply Qmult_le_0_compat; [done|].
  change 0%Q with (inject_Z 0). rewrite <- Zle_Qle. apply Z.pow_nonneg. lia.
Qed.

(** With a non-negative backoff factor, an initial part of a trace has
    waited no longer than the whole. *)
Lemma waited_prefix fl c :
  (0 <= backoff_factor c)%Q →
  ∀ (n : nat) (a : Z) l,
    l `prefix_of` failed_run fl c a n →
    (0 <= waited l)%Q ∧ (waited l <= waited (failed_run fl c a n))%Q.
Proof.
  intros Hnonneg. induction n as [|n IH]; intros a l Hl.
  - apply prefix_nil_inv in Hl as ->. by split.
  - destruct n as [|n].
    + destruct l as [|x l]; [by split|].
      pose proof (prefix_cons_inv_1 _ _ _ _ Hl) as ->.
      apply prefix_cons_inv_2, prefix_nil_inv in Hl as ->. by split.
    + rewrite failed_run_step in *.
      pose proof (backoff_value_nonneg c a Hnonneg) as Hd.
      destruct (IH (a + 1) (failed_run fl c (a + 1) (S n))) as [Hfull _]; [done|].
      assert (waited (Post a :: wait fl (backoff_value c a) :: failed_run fl c (a + 1) (S n))
              = (backoff_value c a + waited (failed_run fl c (a + 1) (S n)))%Q) as ->
        by (by destruct fl).
      assert (0 <= backoff_value c a + waited (failed_run fl c (a + 1) (S n)))%Q as Hsum.
      { change 0%Q with (0 + 0)%Q. by apply Qplus_le_compat. }
      destruct l as [|x l]; [by split|].
      pose proof (prefix_cons_inv_1 _ _ _ _ Hl) as ->.
      apply prefix_cons_inv_2 in Hl.
      destruct l as [|y l]; [by split|].
      pose proof (prefix_cons_inv_1 _ _ _ _ Hl) as ->.
      apply prefix_cons_inv_2, IH in Hl as [Hlow Hhigh].
      assert (waited (Post a :: wait fl (backoff_value c a) :: l)
              = (backoff_value c a + waited l)%Q) as -> by (by destruct fl).
      split.
      * change 0%Q with (0 + 0)%Q. by apply Qplus_le_compat.
      * apply Qplus_le_compat; [apply Qle_refl | done].
Qed.

(** X6.  With a non-negative backoff factor, the time one call spends
    sleeping is at most [backoff_factor * (2^(retries - 1) - 1)], whatever
    the server does. *)
Theorem predict_total_wait_bounded fl retries_arg backoff statuses w image_path :
  let c := init retries_arg backoff statuses in
  (0 <= backoff)%Q →
  (waited (snd (predict_with fl c w image_path))
   <= backoff * inject_Z (2 ^ (retries c - 1) - 1))%Q.
Proof.
  intros c Hnonneg.
  assert (1 ≤ retries c) as Hpos by (simpl; lia).
  destruct (waited_prefix fl c Hnonneg _ _ _ (predict_with_prefix fl c w image_path Hpos))
    as [_ Hle].
  eapply Qle_trans; [exact Hle|].
  replace (Z.to_nat (retries c)) with (S (Z.to_nat (retries c - 1))) by lia.
  rewrite waited_failed_run by lia. change (2 ^ (1 - 1)) with 1. rewrite Z.mul_1_l.
  replace (Z.of_nat (Z.to_nat (retries c - 1))) with (retries c - 1) by lia.
  apply Qle_refl.
Qed.

(** X7.  Each wait is twice the one before: as long as the power of two
    converts to a float (up to attempt 1024) and the product is finite,
    [_get_backoff] returns, and doubles from one attempt to the next. *)
Theorem _get_backoff_doubles c attempt :
  1 ≤ attempt →
  attempt + 1 ≤ 1024 →
  finite_wait c (attempt + 1) →
  ∃ b b',
    _get_backoff c attempt = Returned b ∧
    _get_backoff c (attempt + 1) = Returned b' ∧
    (b' == 2 * b)%Q.
Proof.
  intros Hpos Hmax _. unfold _get_backoff.
  destruct (Z.leb_spec 1024 (attempt - 1)); [lia|].
  destruct (Z.leb_spec 1024 (attempt + 1 - 1)); [lia|].
  eexists _, _. split; [done|]. split; [done|]. unfold backoff_value.
  replace (attempt + 1 - 1) with (Z.succ (attempt - 1)) by lia.
  rewrite Z.pow_succ_r by lia. rewrite inject_Z_mult.
  change (inject_Z 2) with 2%Q. ring.
Qed.

End HttpCoverage.

Lemma predict_trace_within_budget_directory :
  Http.predict (H := posix_paths) (Http.init 3 (1 # 2) None) Http.directory_path "img.jpg"
  = (Raised (OSError "[Errno 21] Is a directory: 'img.jpg'"), []).
Proof. reflexivity. Qed.

Lemma predict_first_success_witness :
  Http.predict (H := posix_paths) (Http.init 4 (1 # 100) None) Http.flaky_server "img.jpg"
  = (Returned (VDict [("ok", VBool true)]),
     Http.failed_run Http.Sync (Http.init 4 (1 # 100) None) 1 3).
Proof.
  apply (predict_first_success (H := posix_paths)
           Http.Sync 4 (1 # 100) None Http.flaky_server "img.jpg" 3).
  - reflexivity.
  - lia.
  - simpl. lia.
  - lia.
  - intros j _. reflexivity.
  - intros j Hj. assert (j = 1 ∨ j = 2) as [-> | ->] by lia; by vm_compute.
  - intros j Hj. assert ((j <=? 2) = true) as Hle by lia.
    simpl. rewrite Hle. simpl. right. lia.
  - split; [simpl; lia|]. split; [|reflexivity].
    apply (bool_decide_eq_false_1 (200 ∈ Http.DEFAULT_RETRY_STATUSES)). by vm_compute.
Defined.

Lemma predict_retries_every_error_status_witness :
  ∃ msg,
    Http.predict_async (H := posix_paths) (Http.init 3 (1 # 2) None) Http.not_found_server
      "img.jpg"
    = (Raised (HTTPStatusError msg 404),
       Http.failed_run Http.Async (Http.init 3 (1 # 2) None) 1 3).
Proof.
  apply (predict_retries_every_error_status (H := posix_paths)
           Http.Async 3 (1 # 2) None Http.not_found_server "img.jpg"
           (λ _, Http.dummy_response 404 (Returned (VDict [("detail", VStr "Not Found")])))).
  - reflexivity.
  - simpl. lia.
  - intros j _. reflexivity.
  - intros j Hj. simpl in Hj. assert (j = 1 ∨ j = 2) as [-> | ->] by lia; by vm_compute.
  - intros j _. split; [reflexivity | simpl; lia].
Defined.

Lemma predict_uncaught_exception_is_not_retried_witness :
  Http.predict (H := posix_paths) (Http.init 3 (1 # 2) None) Http.html_server "img.jpg"
  = (Raised JSONDecodeError, [Http.Post 1]).
Proof.
  apply (predict_uncaught_exception_is_not_retried (H := posix_paths)
           Http.Sync 3 (1 # 2) None Http.html_server "img.jpg").
  - reflexivity.
  - reflexivity.
  - split; [reflexivity|]. simpl. split; [|split; [lia|reflexivity]].
    apply (bool_decide_eq_false_1 (200 ∈ Http.DEFAULT_RETRY_STATUSES)). by vm_compute.
Defined.


Lemma predict_total_wait_bounded_witness :
  (Http.waited
     (snd (Http.predict (H := posix_paths) (Http.init 3 (1 # 2) None) Http.dead_server
             "img.jpg"))
   <= (1 # 2) * inject_Z (2 ^ (3 - 1) - 1))%Q.
Proof.
  apply (predict_total_wait_bounded (H := posix_paths)
           Http.Sync 3 (1 # 2) None Http.dead_server "img.jpg").
  discriminate.
Defined.

Lemma _get_backoff_doubles_witness :
  ∃ b b',
    Http._get_backoff (Http.init 3 (1 # 2) None) 2 = Returned b ∧
    Http._get_backoff (Http.init 3 (1 # 2) None) (2 + 1) = Returned b' ∧
    (b' == 2 * b)%Q.
Proof. apply (_get_backoff_doubles (Http.init 3 (1 # 2) None) 2); [lia | lia | by vm_compute]. Defined.

(* --------------------------------------------------------------------- *)
(** ** format_detections, continued *)
(* --------------------------------------------------------------------- *)

Section PostprocessCoverage.
Import Postprocess.

Lemma detection_short names b s c :
  (length b < 4)%nat →
  detection names b s c = Raised (IndexError "list index out of range").
Proof.
  destruct b as [|x1 [|y1 [|x2 [|y2 rest]]]]; simpl; intros Hlen; try lia; reflexivity.
Qed.

Lemma format_loop_short names :
  ∀ boxes scores classes out i b,
    (i < Nat.min (length boxes) (Nat.min (length scores) (length classes)))%nat →
    boxes !! i = Some b →
    (length b < 4)%nat →
    format_loop names boxes scores classes out
    = Raised (IndexError "list index out of range").
Proof.
  induction boxes as [|b0 boxes IH]; intros [|s scores] [|c classes] out i b Hi Hb Hshort;
    simpl in Hi; try lia.
  cbn [format_loop].
  destruct (le_lt_dec 4 (length b0)) as [Hfour|Hless].
  - rewrite (detection_four _ _ _ _ Hfour). cbn [mbind result_bind].
    destruct i as [|i]; [simpl in Hb; injection Hb as ->; lia|].
    apply (IH scores classes _ i b); [lia|done|done].
  - by rewrite (detection_short _ _ _ _ Hless).
Qed.

Lemma format_loop_take names :
  ∀ boxes scores classes out,
    let n := Nat.min (length boxes) (Nat.min (length scores) (length classes)) in
    format_loop names boxes scores classes out
    = format_loop names (take n boxes) (take n scores) (take n classes) out.
Proof.
  induction boxes as [|b boxes IH]; intros [|s scores] [|c classes] out n; subst n;
    try done.
  cbn [length Nat.min take format_loop].
  destruct (detection names b s c); [|done].
  cbn [mbind result_bind]. apply IH.
Qed.


(** X9.  Only the first min(len(boxes), len(scores), len(classes)) entries
    of each list matter: truncating the three lists to that length
    beforehand changes nothing. *)
Theorem format_detections_ignores_tails boxes scores classes names :
  let n := Nat.min (length boxes) (Nat.min (length scores) (length classes)) in
  format_detections boxes scores classes names
  = format_detections (take n boxes) (take n scores) (take n classes) names.
Proof. intros n. apply format_loop_take. Qed.

End PostprocessCoverage.

(* --------------------------------------------------------------------- *)
(** ** The adapter and the factory, continued *)
(* --------------------------------------------------------------------- *)

Section LoaderCoverage.
Context `{Pathlib}.
Import Loader.

(** X10.  After [load] the mode is one of "dry-run", "no-weights" and
    "inference"; it is "inference" only with a detector built from weights
    that exist, and "dry-run" only when the library could not be imported,
    in which case there is no detector; without a detector the name table
    is empty. *)
Theorem load_invariants E self weights_path :
  let a := load E self weights_path in
  (mode a = "dry-run" ∨ mode a = "no-weights" ∨ mode a = "inference") ∧
  (mode a = "inference" →
   ∃ ul d, ultralytics E = Returned ul ∧ YOLO ul weights_path = Returned d ∧
           model a = Some d ∧ truthy weights_path = true ∧
           os_path_exists E (default "" weights_path) = true) ∧
  (mode a = "dry-run" → (∃ e, ultralytics E = Raised e) ∧ model a = None) ∧
  (model a = None → names a = ∅).
Proof.
  unfold load. destruct (ultralytics E) as [ul|e]; simpl.
  - destruct (truthy weights_path) eqn:Htruthy; simpl.
    + destruct (os_path_exists E (default "" weights_path)) eqn:Hexists.
      * destruct (YOLO ul weights_path) as [d|e] eqn:Hyolo; simpl.
        -- split; [auto|]. split; [by intros _; exists ul, d|]. by split.
        -- split; [auto|]. by repeat split.
      * destruct (YOLO ul None) as [d|e]; simpl; (split; [auto|]); by repeat split.
    + destruct (YOLO ul None) as [d|e]; simpl; (split; [auto|]); by repeat split.
  - split; [auto|]. split; [done|]. split; [|done]. intros _. split; [by exists e|done].
Qed.

(** X11.  [load] starts afresh: the detector, the mode and the name table
    it leaves do not depend on what the adapter held before, and loading
    twice gives what loading once gives. *)
Theorem load_overwrites E self self' weights_path :
  model (load E self weights_path) = model (load E self' weights_path) ∧
  mode (load E self weights_path) = mode (load E self' weights_path) ∧
  names (load E self weights_path) = names (load E self' weights_path) ∧
  load E (load E self weights_path) weights_path = load E self weights_path.
Proof.
  unfold load. destruct (ultralytics E) as [ul|e]; [|done].
  by destruct (truthy weights_path && os_path_exists E (default "" weights_path));
    [destruct (YOLO ul weights_path) | destruct (YOLO ul None)].
Qed.

(** X12.  The factory's name test: a lowercased name selects the yolovx
    adapter exactly when it starts with "yolo" or contains "yolov", and
    selects the stub otherwise; the later comparison with "yolovx" and
    "yolox" never decides anything. *)
Theorem chosen_yolovx_iff a :
  (chosen a = "yolovx" ↔ startswith a "yolo" = true ∨ contains "yolov" a = true) ∧
  (chosen a = "yolovx" ∨ chosen a = "stub").
Proof.
  destruct (startswith a "yolo") eqn:Hyolo.
  { unfold chosen. rewrite Hyolo. simpl. split; [|by left]. split; auto. }
  destruct (contains "yolov" a) eqn:Hyolov.
  { unfold chosen. rewrite Hyolov, !orb_true_r. split; [|by left]. split; auto. }
  rewrite (chosen_stub a Hyolo Hyolov). split; [|by right].
  split; [done|]. by intros [|].
Qed.

Lemma infer_without_detector self image_path :
  model self = None →
  infer (YolovXAdapter self) image_path = Returned (schema self image_path None None []).
Proof. intros Hnone. simpl. unfold YolovXAdapter_infer. by rewrite Hnone. Qed.

(** X13.  Without the detector library the factory still serves: for every
    adapter name and weights argument, the model it returns answers [infer]
    with the stable schema, no detections and mode "dry-run", and never
    raises. *)
Theorem get_model_degrades_without_library E adapter weights image_path :
  (∃ e, ultralytics E = Raised e) →
  ∃ m r,
    get_model E adapter weights = Returned m ∧
    infer m image_path = Returned r ∧
    dict_keys r = ["image"; "width"; "height"; "detections"; "model"] ∧
    dict_get "detections" r = Some (VList []) ∧
    dict_get "model" r ≫= dict_get "mode" = Some (VStr "dry-run").
Proof.
  intros [e Himport]. unfold get_model, get_model_io.
  destruct (String.eqb _ "yolovx").
  - unfold BaseModel_load. eexists _, _. split; [done|].
    rewrite infer_without_detector by (unfold load; by rewrite Himport).
    split; [done|]. unfold load. rewrite Himport. by repeat split.
  - unfold BaseModel_load.
    destruct (Model.StubModel_load _ _) as [[] ?]; eexists _, _; by repeat split.
Qed.

End LoaderCoverage.

Lemma get_model_degrades_without_library_witness :
  ∃ m r,
    Loader.get_model Loader.env_no_library (Some "YOLOv8") (Some "/models/yolov8n.pt")
    = Returned m ∧
    Loader.infer (H := posix_paths) m "img.jpg" = Returned r ∧
    dict_keys r = ["image"; "width"; "height"; "detections"; "model"] ∧
    dict_get "detections" r = Some (VList []) ∧
    dict_get "model" r ≫= dict_get "mode" = Some (VStr "dry-run").
Proof.
  apply (get_model_degrades_without_library (H := posix_paths) Loader.env_no_library).
  by eexists.
Defined.

(* --------------------------------------------------------------------- *)
(** ** _parse_results *)
(* --------------------------------------------------------------------- *)

Section ParseResults.
Import Postprocess Loader.

Lemma format_loop_length names :
  ∀ bs scores classes out ds,
    format_loop names bs scores classes out = Returned ds →
    length ds
    = (length out + Nat.min (length bs) (Nat.min (length scores) (length classes)))%nat.
Proof.
  induction bs as [|b bs IH]; intros [|s scores] [|c classes] out ds;
    try (intros [= <-]; simpl; lia).
  cbn [format_loop]. destruct (detection names b s c) as [d|e]; [|done].
  cbn [mbind result_bind]. intros Hloop%IH. rewrite Hloop, length_app. simpl. lia.
Qed.

Lemma schema_fields self image_path width height detections :
  let r := schema self image_path width height detections in
  dict_keys r = ["image"; "width"; "height"; "detections"; "model"] ∧
  dict_get "image" r = Some (VStr image_path) ∧
  dict_get "detections" r = Some (VList detections) ∧
  dict_get "model" r
  = Some (VDict [ ("adapter", VStr "yolovx"); ("mode", VStr (mode self));
                  ("version", opt_str (version self)) ]).
Proof. by repeat split. Qed.

(** X14.  Whatever the detector hands back, [_parse_results] returns the
    stable schema: the five keys, the image path it was given, the
    adapter's own mode and version, and a detection list no longer than the
    number of boxes of the first result. *)
Theorem _parse_results_schema self results image_path :
  let r := _parse_results self results image_path in
  dict_keys r = ["image"; "width"; "height"; "detections"; "model"] ∧
  dict_get "image" r = Some (VStr image_path) ∧
  dict_get "model" r
  = Some (VDict [ ("adapter", VStr "yolovx"); ("mode", VStr (mode self));
                  ("version", opt_str (version self)) ]) ∧
  ∃ detections,
    dict_get "detections" r = Some (VList detections) ∧
    (length detections ≤ box_count results)%nat.
Proof.
  unfold _parse_results, box_count.
  destruct results as [|r0 rest].
  { split; [done|]. split; [done|]. split; [done|]. exists []. by split. }
  destruct (match orig_shape r0 with
            | Some (h :: w :: _) => (Some h, Some w)
            | _ => (None, None)
            end) as [height width].
  destruct (boxes r0) as [bo|].
  2:{ split; [done|]. split; [done|]. split; [done|]. exists []. by split. }
  split; [done|]. split; [done|]. split; [done|].
  eexists. split; [done|].
  unfold format_detections, try_except.
  destruct (format_loop _ _ _ _ _) as [ds|e] eqn:Hloop; [|simpl; lia].
  apply format_loop_length in Hloop. rewrite Hloop, !length_take. simpl. lia.
Qed.

(** X15.  A conversion failure costs the detections and nothing else: when
    one of the boxes that would be paired has fewer than four coordinates,
    [_parse_results] returns an empty detection list and still reports the
    image size read from [orig_shape]. *)
Theorem _parse_results_short_box self r rest image_path h w shape bo bs i b :
  orig_shape r = Some (h :: w :: shape) →
  boxes r = Some bo →
  xyxy bo = Some bs →
  (i < Nat.min (length bs)
         (Nat.min (length (default (replicate (length bs) (Finite 0)) (conf bo)))
                  (length (default (replicate (length bs) 0%Z) (cls bo)))))%nat →
  bs !! i = Some b →
  (length b < 4)%nat →
  _parse_results self (r :: rest) image_path
  = schema self image_path (Some w) (Some h) [].
Proof.
  intros Hshape Hboxes Hxyxy Hi Hb Hshort.
  unfold _parse_results. rewrite Hshape, Hboxes, Hxyxy. simpl default.
  unfold format_detections. rewrite <- format_loop_take.
  by rewrite (format_loop_short _ _ _ _ _ i b Hi Hb Hshort).
Qed.

Lemma format_loop_replicate names :
  ∀ (bs : list (list float)) out,
    Forall (λ b, 4 ≤ length b)%nat bs →
    format_loop names bs (replicate (length bs) (Finite 0)) (replicate (length bs) 0) out
    = Returned (out ++ ((λ b, nth_detection names b 0%Q 0) <$> bs)).
Proof.
  induction bs as [|b bs IH]; intros out Hfour.
  - simpl. by rewrite app_nil_r.
  - apply Forall_cons in Hfour as [Hb Hrest].
    cbn [length replicate format_loop]. rewrite (detection_four _ _ _ _ Hb).
    cbn [mbind result_bind]. rewrite IH by done. by rewrite <- app_assoc.
Qed.

(** X16.  When the detector gives boxes but neither confidences nor
    classes, every box becomes a detection with score 0.0 and class 0, in
    order. *)
Theorem _parse_results_boxes_only self r rest image_path bo bs :
  boxes r = Some bo →
  xyxy bo = Some bs →
  conf bo = None →
  cls bo = None →
  Forall (λ b, 4 ≤ length b)%nat bs →
  dict_get "detections" (_parse_results self (r :: rest) image_path)
  = Some (VList ((λ b, nth_detection (names self) b 0%Q 0) <$> bs)).
Proof.
  intros Hboxes Hxyxy Hconf Hcls Hfour.
  unfold _parse_results. rewrite Hboxes, Hxyxy, Hconf, Hcls. simpl default.
  destruct (match orig_shape r with
            | Some (h :: w :: _) => (Some h, Some w)
            | _ => (None, None)
            end) as [height width].
  unfold format_detections. rewrite <- format_loop_take.
  by rewrite (format_loop_replicate _ bs [] Hfour).
Qed.

End ParseResults.

(* --------------------------------------------------------------------- *)
(** ** The upload handler, continued *)
(* --------------------------------------------------------------------- *)

Section MainCoverage.
Context `{Pathlib}.
Import Main.

Lemma read_chunk st :
  ∃ n, Z.of_nat n = chunk_size ∧
       read chunk_size st
       = (take n (unread st),
          {| fs := fs st; unread := drop n (unread st);
             closed := closed st; log := log st ++ [Read chunk_size] |}).
Proof. exists (Z.to_nat chunk_size). split; [unfold chunk_size; lia | done]. Qed.

Lemma bounded_writes_app path l1 l2 :
  bounded_writes path l1 → bounded_writes path l2 → bounded_writes path (l1 ++ l2).
Proof. intros H1 H2. by apply Forall_app. Qed.

(** What the loop keeps, however it ends: the upload stays open, no file
    but [path] changes, and each write it logs is a chunk for [path]. *)
Lemma write_loop_invariants path limit :
  ∀ fuel uploaded st,
    let st' := snd (write_loop fuel limit path uploaded st) in
    closed st' = closed st ∧
    (∀ q, q ≠ path → fs st' !! q = fs st !! q) ∧
    ∃ new, log st' = log st ++ new ∧ bounded_writes path new.
Proof.
  induction fuel as [|fuel IH]; intros uploaded st.
  { simpl. split; [done|]. split; [done|]. exists [].
    split; [by rewrite app_nil_r | constructor]. }
  cbn [write_loop]. destruct (read_chunk st) as (n & Hn & ->).
  destruct (take n (unread st)) as [|b chunk] eqn:Hchunk.
  { simpl. split; [done|]. split; [done|]. eexists. split; [done|].
    by repeat constructor. }
  destruct (limit <? _).
  - simpl. split; [done|]. split.
    + intros q Hq. unfold unlink. destruct (fs st !! path); simpl; [|done].
      by rewrite lookup_delete_ne.
    + exists [Read chunk_size; CloseFile path; Unlink path].
      split; [by rewrite <- !app_assoc|]. by repeat constructor.
  - destruct (IH (uploaded + Z.of_nat (length (b :: chunk)))
                (write path (b :: chunk)
                   {| fs := fs st; unread := drop n (unread st); closed := closed st;
                      log := log st ++ [Read chunk_size] |}))
      as (Hclosed & Hframe & new & Hlog & Hnew).
    split; [exact Hclosed|]. split.
    + intros q Hq. rewrite Hframe by done. simpl. by rewrite lookup_alter_ne.
    + exists (Read chunk_size :: Write path (b :: chunk) :: new).
      split; [rewrite Hlog; simpl; by rewrite <- !app_assoc|].
      constructor; [done|]. constructor; [|done]. split; [done|].
      assert (length (b :: chunk) ≤ n)%nat as Hle
        by (rewrite <- Hchunk, length_take; lia).
      simpl length in *. lia.
Qed.

(** The handler after the loop: it answers with 200, 400 or 500, touches no
    file but [path], closes the upload and writes nothing more. *)
Lemma after_write_always A path st0 :
  ∃ r st,
    after_write A path st0 = Some (r, st) ∧
    (status_of r = 200 ∨ status_of r = 400 ∨ status_of r = 413 ∨ status_of r = 500) ∧
    (∀ q, q ≠ path → fs st !! q = fs st0 !! q) ∧
    closed st = true ∧
    ∃ tail, log st = log st0 ++ tail ∧
            Forall (λ e, match e with Write _ _ => False | _ => True end) tail.
Proof.
  unfold after_write. cbv zeta. destruct (negb _).
  - eexists _, _. split; [done|]. split; [auto|]. split.
    { intros q Hq. simpl. unfold unlink. simpl.
      destruct (fs st0 !! path); simpl; [by rewrite lookup_delete_ne by done | done]. }
    split; [done|]. eexists. split; [simpl; by rewrite <- !app_assoc|]. by repeat constructor.
  - destruct (MODEL A) as [m|].
    + destruct (_ ≫= _); eexists _, _; (split; [done|]); (split; [auto|]);
        (split; [done|]); (split; [done|]);
        eexists; (split; [simpl; by rewrite <- !app_assoc|]); by repeat constructor.
    + eexists _, _. split; [done|]. split; [auto|]. split; [done|]. split; [done|].
      eexists. split; [simpl; by rewrite <- !app_assoc|]. by repeat constructor.
Qed.

(** Every request gets an answer with one of four statuses; no file but the
    one it saves to changes; the upload is closed unless the content type
    was refused or the upload directory could not be made; every write is a
    chunk of bounded size. *)
Lemma predict_always A token file files :
  let path := upload_path A token file in
  ∃ r st,
    predict A token file files = Some (r, st) ∧
    (status_of r = 200 ∨ status_of r = 400 ∨ status_of r = 413 ∨ status_of r = 500) ∧
    (∀ q, q ≠ path → fs st !! q = files !! q) ∧
    (closed st = true ↔
     lower (default "" (content_type file)) ∈ ALLOWED_CONTENT_TYPES ∧
     mkdir_error A (UPLOAD_DIR A) = None) ∧
    bounded_writes path (log st).
Proof.
  intros path. unfold predict. fold path.
  destruct (decide (lower (default "" (content_type file)) ∈ ALLOWED_CONTENT_TYPES))
    as [Hin|Hout].
  2:{ rewrite bool_decide_eq_false_2 by done. simpl negb. cbv iota.
      eexists _, _. split; [done|]. split; [auto|]. split; [done|].
      split; [|constructor]. simpl. split; [done|]. by intros [? _]. }
  rewrite bool_decide_eq_true_2 by done. simpl negb. cbv iota zeta.
  destruct (mkdir_error A (UPLOAD_DIR A)) as [e|] eqn:Hmkdir.
  { eexists _, _. split; [done|]. split; [simpl; auto|]. split; [done|].
    split; [|constructor]. simpl. split; [done|]. by intros [_ ?]. }
  destruct (open_error A path) as [e|] eqn:Hopen.
  { eexists _, _. split; [done|]. split; [simpl; auto|]. split; [done|].
    split; [done|]. by repeat constructor. }
  set (st1 := open_wb path (emit (Mkdir (UPLOAD_DIR A)) (initial files file))).
  pose proof (write_loop_fuel path (MAX_UPLOAD_SIZE A) (S (length (unread st1))) 0 st1
                (Nat.lt_succ_diag_r _)) as Hfuel.
  destruct (write_loop_invariants path (MAX_UPLOAD_SIZE A) (S (length (unread st1))) 0 st1)
    as (Hclosed & Hframe & new & Hlog & Hnew).
  destruct (write_loop _ _ _ _ _) as [ending st'] eqn:Hloop.
  simpl in Hfuel, Hclosed, Hframe, Hlog.
  assert (∀ q, q ≠ path → fs st' !! q = files !! q) as Hfiles.
  { intros q Hq. rewrite Hframe by done. simpl. by rewrite lookup_insert_ne. }
  assert (bounded_writes path (log st')) as Hwrites.
  { rewrite Hlog. by repeat (constructor; [done|]). }
  assert (∀ tail, Forall (λ e, match e with Write _ _ => False | _ => True end) tail →
                  bounded_writes path (log st' ++ tail)) as Hmore.
  { intros tail Htail. apply bounded_writes_app; [done|].
    eapply Forall_impl; [exact Htail|]. by intros []. }
  destruct ending; [| |done].
  - destruct (after_write_always A path st')
      as (r & st & -> & Hstatus & Hsame & Hdone & tail & Htail & Hnowrite).
    exists r, st. split; [done|]. split; [done|]. split.
    { intros q Hq. rewrite Hsame by done. by apply Hfiles. }
    split; [done|]. rewrite Htail. by apply Hmore.
  - eexists _, _. split; [done|]. split; [auto|]. split; [exact Hfiles|].
    split; [done|]. simpl. apply (Hmore [CloseUpload]). by repeat constructor.
Qed.

(** X17.  The handler answers every request, and always with status 200,
    400, 413 or 500. *)
Theorem predict_status_codes A token file files :
  ∃ r st,
    predict A token file files = Some (r, st) ∧
    (status_of r = 200 ∨ status_of r = 400 ∨ status_of r = 413 ∨ status_of r = 500).
Proof.
  destruct (predict_always A token file files) as (r & st & Hp & Hstatus & _).
  by exists r, st.
Qed.

(** X18.  A request never touches a file other than the one it saves its
    upload to, whatever its outcome. *)
Theorem predict_leaves_other_files A token file files :
  ∃ r st,
    predict A token file files = Some (r, st) ∧
    ∀ q, q ≠ upload_path A token file → fs st !! q = files !! q.
Proof.
  destruct (predict_always A token file files) as (r & st & Hp & _ & Hframe & _).
  by exists r, st.
Qed.

(** X19.  The upload is closed on every path that reaches the [try] block,
    and only on those: when the content type is refused, or the upload
    directory cannot be made, the handler ends without closing it. *)
Theorem predict_closes_upload_iff_allowed A token file files :
  ∃ r st,
    predict A token file files = Some (r, st) ∧
    (closed st = true ↔
     lower (default "" (content_type file)) ∈ ALLOWED_CONTENT_TYPES ∧
     mkdir_error A (UPLOAD_DIR A) = None).
Proof.
  destruct (predict_always A token file files) as (r & st & Hp & _ & _ & Hclosed & _).
  by exists r, st.
Qed.

(** X20.  The body is never written in one piece larger than the chunk
    size: every write the handler issues goes to the upload's own path and
    carries between 1 byte and 1 MiB. *)
Theorem predict_writes_bounded_chunks A token file files :
  ∃ r st,
    predict A token file files = Some (r, st) ∧
    bounded_writes (upload_path A token file) (log st).
Proof.
  destruct (predict_always A token file files) as (r & st & Hp & _ & _ & _ & Hwrites).
  by exists r, st.
Qed.

(** A body within the limit takes the handler through the whole loop. *)
Lemma predict_within_limit A token file files :
  let path := upload_path A token file in
  lower (default "" (content_type file)) ∈ ALLOWED_CONTENT_TYPES →
  mkdir_error A (UPLOAD_DIR A) = None →
  open_error A path = None →
  Z.of_nat (length (body file)) ≤ MAX_UPLOAD_SIZE A →
  ∃ st',
    predict A token file files = after_write A path st' ∧
    fs st' !! path = Some (body file).
Proof.
  intros path Hallowed Hmkdir Hopen Hfits.
  rewrite (predict_opened A token file files Hallowed Hmkdir Hopen). fold path.
  edestruct (write_loop_finished path (MAX_UPLOAD_SIZE A)
               (S (length (unread (open_wb path (emit (Mkdir (UPLOAD_DIR A))
                                                    (initial files file))))))
               0 (open_wb path (emit (Mkdir (UPLOAD_DIR A)) (initial files file))) [])
    as (st' & Hloop & Hfs & _).
  - lia.
  - simpl. apply lookup_insert_eq.
  - simpl. lia.
  - rewrite Hloop. exists st'. split; [reflexivity|]. exact Hfs.
Qed.

(** X21.  The size check is strict: an upload of an allowed type, for which
    the upload directory can be made and the file opened, is answered with
    413 exactly when its body is longer than the ceiling; a body of exactly
    the ceiling's length is accepted. *)
Theorem predict_413_iff_over_limit A token file files :
  lower (default "" (content_type file)) ∈ ALLOWED_CONTENT_TYPES →
  mkdir_error A (UPLOAD_DIR A) = None →
  open_error A (upload_path A token file) = None →
  0 ≤ MAX_UPLOAD_SIZE A →
  ∃ r st,
    predict A token file files = Some (r, st) ∧
    (status_of r = 413 ↔ MAX_UPLOAD_SIZE A < Z.of_nat (length (body file))).
Proof.
  intros Hallowed Hmkdir Hopen Hmax.
  destruct (Z.lt_ge_cases (MAX_UPLOAD_SIZE A) (Z.of_nat (length (body file)))) as [Hover|Hfits].
  - rewrite (predict_opened A token file files Hallowed Hmkdir Hopen).
    edestruct (write_loop_too_large (upload_path A token file) (MAX_UPLOAD_SIZE A)
                 (S (length (unread (open_wb (upload_path A token file)
                                       (emit (Mkdir (UPLOAD_DIR A)) (initial files file))))))
                 0 (open_wb (upload_path A token file)
                      (emit (Mkdir (UPLOAD_DIR A)) (initial files file))) [])
      as (st' & kept & rest & Hloop & _).
    + lia.
    + simpl. apply lookup_insert_eq.
    + lia.
    + simpl. lia.
    + rewrite Hloop. eexists _, _. split; [done|]. done.
  - destruct (predict_within_limit A token file files Hallowed Hmkdir Hopen Hfits)
      as (st' & -> & _).
    unfold after_write. cbv zeta.
    destruct (negb _).
    { eexists _, _. split; [done|]. simpl. split; [done|lia]. }
    destruct (MODEL A) as [m|]; [destruct (_ ≫= _)|];
      eexists _, _; (split; [done|]); simpl; (split; [done|lia]).
Qed.

(** X22.  An upload that fits but fails the image check, once the upload
    directory is made and the file opened, is answered with 400, and the
    file written for it is deleted before the answer. *)
Theorem predict_invalid_image A token file files verify :
  let path := upload_path A token file in
  lower (default "" (content_type file)) ∈ ALLOWED_CONTENT_TYPES →
  mkdir_error A (UPLOAD_DIR A) = None →
  open_error A path = None →
  Z.of_nat (length (body file)) ≤ MAX_UPLOAD_SIZE A →
  pillow A = Some verify →
  verify (body file) = false →
  ∃ st,
    predict A token file files = Some (HTTPException 400 "invalid image file", st) ∧
    fs st !! path = None ∧
    closed st = true.
Proof.
  intros path Hallowed Hmkdir Hopen Hfits Hpillow Hinvalid. subst path.
  destruct (predict_within_limit A token file files Hallowed Hmkdir Hopen Hfits)
    as (st' & -> & Hfs).
  unfold after_write. cbv zeta. rewrite Hpillow. simpl fs.
  rewrite Hfs. simpl default. rewrite Hinvalid. simpl negb. cbv iota.
  eexists. split; [done|]. split; [|done].
  simpl. unfold unlink. simpl. rewrite Hfs. simpl. apply lookup_delete_eq.
Qed.

(** The handler on a saved upload that passes the image check, with a
    model. *)
Lemma predict_inferred A token file files m :
  let path := upload_path A token file in
  lower (default "" (content_type file)) ∈ ALLOWED_CONTENT_TYPES →
  mkdir_error A (UPLOAD_DIR A) = None →
  open_error A path = None →
  Z.of_nat (length (body file)) ≤ MAX_UPLOAD_SIZE A →
  (∀ verify, pillow A = Some verify → verify (body file) = true) →
  MODEL A = Some m →
  ∃ st,
    fs st !! path = Some (body file) ∧
    predict A token file files
    = match (result ← Loader.infer m path;
             render (VDict [ ("result", result); ("path", VStr path) ])) with
      | Returned content => Some (JSONResponse content, st)
      | Raised e => Some (HTTPException 500 (exn_str e), st)
      end.
Proof.
  intros path Hallowed Hmkdir Hopen Hfits Hvalid Hmodel. subst path.
  destruct (predict_within_limit A token file files Hallowed Hmkdir Hopen Hfits)
    as (st' & -> & Hfs).
  unfold after_write. cbv zeta. simpl fs. rewrite Hfs. simpl default.
  assert (match pillow A with
          | Some verify => verify (body file)
          | None => true
          end = true) as ->.
  { destruct (pillow A) as [verify|] eqn:Hpil; [by apply Hvalid | done]. }
  simpl negb. cbv iota. rewrite Hmodel.
  exists (emit (Infer (upload_path A token file))
            (close_upload (emit (CloseFile (upload_path A token file)) st'))).
  split; [exact Hfs|]. reflexivity.
Qed.

(** X23.  When the model's inference raises on an upload that was saved and
    passed the image check, the handler answers 500 with the exception's
    message as detail, and the saved upload stays on disk with all its
    bytes. *)
Theorem predict_inference_error A token file files m e :
  let path := upload_path A token file in
  lower (default "" (content_type file)) ∈ ALLOWED_CONTENT_TYPES →
  mkdir_error A (UPLOAD_DIR A) = None →
  open_error A path = None →
  Z.of_nat (length (body file)) ≤ MAX_UPLOAD_SIZE A →
  (∀ verify, pillow A = Some verify → verify (body file) = true) →
  MODEL A = Some m →
  Loader.infer m path = Raised e →
  ∃ st,
    predict A token file files = Some (HTTPException 500 (exn_str e), st) ∧
    fs st !! path = Some (body file).
Proof.
  intros path Hallowed Hmkdir Hopen Hfits Hvalid Hmodel Hraise.
  destruct (predict_inferred A token file files m Hallowed Hmkdir Hopen Hfits Hvalid Hmodel)
    as (st & Hfs & ->).
  fold path. rewrite Hraise. by exists st.
Qed.

(** X30.  A result that holds a non-finite float cannot be rendered as
    JSON: the response is built inside the [try] around the inference, so
    the handler answers 500 although the inference returned, and the saved
    upload stays on disk. *)
Theorem predict_non_finite_result A token file files m result :
  let path := upload_path A token file in
  lower (default "" (content_type file)) ∈ ALLOWED_CONTENT_TYPES →
  mkdir_error A (UPLOAD_DIR A) = None →
  open_error A path = None →
  Z.of_nat (length (body file)) ≤ MAX_UPLOAD_SIZE A →
  (∀ verify, pillow A = Some verify → verify (body file) = true) →
  MODEL A = Some m →
  Loader.infer m path = Returned result →
  json_compliant result = false →
  ∃ detail st,
    predict A token file files = Some (HTTPException 500 detail, st) ∧
    fs st !! path = Some (body file).
Proof.
  intros path Hallowed Hmkdir Hopen Hfits Hvalid Hmodel Hresult Hnan.
  destruct (predict_inferred A token file files m Hallowed Hmkdir Hopen Hfits Hvalid Hmodel)
    as (st & Hfs & ->).
  fold path. rewrite Hresult. cbn [mbind result_bind]. unfold render.
  cbn [json_compliant forallb]. rewrite Hnan. simpl.
  by eexists _, st.
Qed.

Lemma lower_ascii_idempotent c : lower_ascii (lower_ascii c) = lower_ascii c.
Proof. by destruct c as [[] [] [] [] [] [] [] []]. Qed.

Lemma lower_idempotent s : lower (lower s) = lower s.
Proof.
  induction s as [|c s IH]; [done|]. simpl. by rewrite lower_ascii_idempotent, IH.
Qed.

(** X24.  The content type is compared without regard to case: an upload
    is handled exactly as the same upload with its content type
    lowercased. *)
Theorem predict_content_type_case_insensitive A token file files ct :
  predict A token (with_content_type (Some ct) file) files
  = predict A token (with_content_type (Some (lower ct)) file) files.
Proof.
  unfold predict, with_content_type, upload_path, initial. simpl.
  by rewrite lower_idempotent.
Qed.

End MainCoverage.

(* --------------------------------------------------------------------- *)
(** ** Start-up, health, the in-process bridge and the command line *)
(* --------------------------------------------------------------------- *)

Section Wiring.
Context `{Pathlib}.
Import Loader.

Lemma load_mode_cases E self weights_path :
  mode (load E self weights_path) = "dry-run" ∨
  mode (load E self weights_path) = "no-weights" ∨
  mode (load E self weights_path) = "inference".
Proof.
  unfold load. destruct (ultralytics E) as [ul|e]; [|auto].
  destruct (truthy weights_path && os_path_exists E (default "" weights_path));
    [destruct (YOLO ul weights_path) | destruct (YOLO ul None)]; auto.
Qed.

Lemma get_model_cases E adapter weights :
  ∃ m, get_model E adapter weights = Returned m ∧
       (m = StubModel ∨ ∃ w, m = YolovXAdapter (load E new w)).
Proof.
  unfold get_model, get_model_io. destruct (String.eqb _ "yolovx").
  - eexists. split; [done|]. right. by eexists.
  - unfold BaseModel_load.
    destruct (Model.StubModel_load _ _) as [[] ?]; eexists; (split; [done|]); by left.
Qed.

Lemma get_model_stub E adapter weights :
  startswith (adapter_name adapter) "yolo" = false →
  contains "yolov" (adapter_name adapter) = false →
  get_model E adapter weights = Returned StubModel.
Proof.
  intros Hyolo Hyolov. unfold get_model, get_model_io. fold (adapter_name adapter).
  rewrite (chosen_stub _ Hyolo Hyolov). simpl. unfold BaseModel_load.
  by destruct (Model.StubModel_load _ _) as [[] ?].
Qed.

(** What the factory prints: nothing, or the one line of the stub. *)
Lemma get_model_io_printed E adapter weights :
  (get_model_io E adapter weights).2 = [] ∨
  (get_model_io E adapter weights).2 = ["StubModel loaded (no weights)"].
Proof.
  unfold get_model_io. destruct (String.eqb _ "yolovx"); [by left|].
  unfold BaseModel_load, Model.StubModel_load, Model.print.
  destruct (stdout_ok E); [by right | by left].
Qed.

(** X25.  Start-up succeeds exactly when the upload directory can be made;
    otherwise the error of [mkdir] keeps the application from starting.
    Once started, [/health] reports status "ok" and a model: either the
    stub, whose mode reads null since it has no such attribute, or the
    yolovx adapter with one of the modes "dry-run", "no-weights" and
    "inference".  After shutdown the adapter reads null again. *)
Theorem health_after_startup getenv E A :
  match Main.mkdir_error A (Main.upload_dir getenv) with
  | Some e => Main.lifespan_startup getenv E A = Raised e
  | None =>
      ∃ A',
        Main.lifespan_startup getenv E A = Returned A' ∧
        dict_get "status" (Main.health A') = Some (VStr "ok") ∧
        (∃ meta,
            dict_get "model" (Main.health A') = Some meta ∧
            (dict_get "adapter" meta = Some (VStr "StubModel") ∧
             dict_get "mode" meta = Some VNone
             ∨
             dict_get "adapter" meta = Some (VStr "YolovXAdapter") ∧
             (dict_get "mode" meta = Some (VStr "dry-run") ∨
              dict_get "mode" meta = Some (VStr "no-weights") ∨
              dict_get "mode" meta = Some (VStr "inference")))) ∧
        dict_get "model" (Main.health (Main.lifespan_shutdown A')) ≫= dict_get "adapter"
        = Some VNone
  end.
Proof.
  unfold Main.lifespan_startup.
  destruct (get_model_cases E (Some (default "stub" (getenv "MODEL_ADAPTER")))
              (getenv "MODEL_WEIGHTS")) as (m & -> & Hm).
  cbn [mbind result_bind].
  destruct (Main.mkdir_error A (Main.upload_dir getenv)) as [e|]; [done|].
  eexists. split; [done|]. split; [done|]. split; [|done].
  eexists. split; [done|]. simpl.
  destruct Hm as [-> | [w ->]]; [by left|right].
  split; [done|]. simpl.
  destruct (load_mode_cases E new w) as [-> | [-> | ->]]; auto.
Qed.


(** X27.  In process, a request that resolves to no yolo variant (by its
    [adapter] argument, else by MODEL_ADAPTER, else by the default "stub")
    never raises and returns the stub's result for the path, whatever the
    weights and whether or not the detector library is there. *)
Theorem predict_inproc_stub getenv E image_path adapter weights :
  let resolved :=
    if truthy adapter then adapter
    else Some (default "stub" (getenv "MODEL_ADAPTER")) in
  startswith (adapter_name resolved) "yolo" = false →
  contains "yolov" (adapter_name resolved) = false →
  Core.predict_inproc getenv E image_path None adapter weights
  = Returned (Model.StubModel_infer image_path).
Proof.
  intros resolved Hyolo Hyolov.
  unfold Core.predict_inproc, Core.predict_inproc_io. fold resolved.
  pose proof (get_model_stub E resolved
                (if truthy weights then weights else getenv "MODEL_WEIGHTS")
                Hyolo Hyolov) as Hstub.
  unfold get_model in Hstub.
  destruct (get_model_io E resolved _) as [model printed].
  simpl in Hstub. by subst model.
Qed.

(** What a handler of the command leaves: the code and one line on the
    error stream, or an exception when that stream is closed. *)
Lemma report_cases (E : Cli.env) line code :
  (Cli.stderr_ok E = true ∧ Cli.report E line code = (Returned code, [Cli.Stderr line])) ∨
  (Cli.stderr_ok E = false ∧ ∃ e, Cli.report E line code = (Raised e, [])).
Proof. unfold Cli.report. destruct (Cli.stderr_ok E); [by left | right; by eauto]. Qed.

Lemma print_or_report_cases (E : Cli.env) called printed prefix code :
  let r := (Cli.print_or_report E called printed prefix code).1 in
  let out := (Cli.print_or_report E called printed prefix code).2 in
  (r = Returned 0 ∧ stdout_ok (Cli.loader_env E) = true ∧
   ∃ v, called = Returned v ∧ out = printed ++ [Cli.Stdout v]) ∨
  (r = Returned code ∧ Cli.stderr_ok E = true ∧
   ∃ line, out = printed ++ [Cli.Stderr line]) ∨
  (Cli.stderr_ok E = false ∧ out = printed ∧ ∃ e, r = Raised e).
Proof.
  unfold Cli.print_or_report, Cli._print_json.
  destruct called as [v|e].
  - destruct (stdout_ok (Cli.loader_env E)) eqn:Hout.
    + left. simpl. split; [done|]. split; [done|]. by exists v.
    + destruct (report_cases E (prefix +:+ exn_str
                  (ValueError "I/O operation on closed file.")) code)
        as [[Herr ->] | [Herr [e ->]]]; simpl.
      * right. left. rewrite app_nil_r. split; [done|]. split; [done|]. by eexists.
      * right. right. rewrite !app_nil_r. split; [done|]. split; [done|]. by eexists.
  - destruct (report_cases E (prefix +:+ exn_str e) code)
      as [[Herr ->] | [Herr [e' ->]]]; simpl.
    + right. left. split; [done|]. split; [done|]. by eexists.
    + right. right. rewrite app_nil_r. split; [done|]. split; [done|]. by eexists.
Qed.


(** X29.  Over HTTP the command uses the client's defaults: whatever the
    server does, one run posts at most three times and sleeps at most a
    second and a half in all. *)
Theorem cmd_predict_http_budget (E : Cli.env) (a : Cli.args) :
  let tr := (Cli.cmd_predict E a).2 in
  (length (List.filter Http.is_post tr) ≤ 3)%nat ∧
  (Http.waited tr <= 3 # 2)%Q.
Proof.
  assert (∀ fl, let tr := snd (Http.predict_with fl (Http.init 3 (1 # 2) None)
                                 (Cli.server E) (Cli.image a)) in
                (length (List.filter Http.is_post tr) ≤ 3)%nat ∧
                (Http.waited tr <= 3 # 2)%Q) as Hcall.
  { intros fl tr.
    pose proof (predict_with_prefix fl (Http.init 3 (1 # 2) None) (Cli.server E) (Cli.image a))
      as Hprefix.
    specialize (Hprefix ltac:(simpl; lia)). fold tr in Hprefix.
    change (Z.to_nat (Http.retries (Http.init 3 (1 # 2) None))) with 3%nat in Hprefix.
    split; [by apply (prefix_counts fl _ _ _ _ Hprefix)|].
    destruct (waited_prefix fl (Http.init 3 (1 # 2) None) ltac:(discriminate) _ _ _ Hprefix)
      as [_ Hle].
    eapply Qle_trans; [exact Hle|]. destruct fl; vm_compute; discriminate. }
  unfold Cli.cmd_predict.
  destruct (Cli.inproc a).
  - destruct (Cli.import_inproc E);
      [destruct (Core.client_predict_inproc_io _ _ _ _ _ _ _)|];
      simpl; split; first [lia | discriminate].
  - destruct (Cli.import_http E); [|simpl; split; first [lia | discriminate]].
    unfold Http.predict, Http.predict_async.
    destruct (Cli.use_async a).
    + pose proof (Hcall Http.Async) as Hc. cbv zeta in Hc.
      destruct (Http.predict_with Http.Async _ _ _) as [called tr]; exact Hc.
    + pose proof (Hcall Http.Sync) as Hc. cbv zeta in Hc.
      destruct (Http.predict_with Http.Sync _ _ _) as [called tr]; exact Hc.
Qed.

End Wiring.

(* --------------------------------------------------------------------- *)
(** ** Instances *)
(* --------------------------------------------------------------------- *)

Lemma _parse_results_short_box_witness :
  Loader._parse_results Loader.new [Loader.ragged_boxes] "img.jpg"
  = Loader.schema Loader.new "img.jpg" (Some 640) (Some 480) [].
Proof.
  apply (_parse_results_short_box Loader.new Loader.ragged_boxes [] "img.jpg" 480 640 []
           {| Loader.xyxy := Some [ floats [1; 2; 30; 40]; floats [5; 6] ]%Q;
              Loader.conf := Some (floats [ 9 # 10; 1 # 2 ])%Q; Loader.cls := Some [0; 1] |}
           [ floats [1; 2; 30; 40]; floats [5; 6] ]%Q 1 (floats [5; 6])%Q).
  - reflexivity.
  - reflexivity.
  - reflexivity.
  - simpl. lia.
  - reflexivity.
  - simpl. lia.
Defined.

Lemma _parse_results_boxes_only_witness :
  dict_get "detections" (Loader._parse_results Loader.new [Loader.two_boxes] "img.jpg")
  = Some (VList ((λ b, Postprocess.nth_detection (Loader.names Loader.new) b 0%Q 0)
                   <$> [ floats [1; 2; 30; 40]; floats [5; 6; 70; 80] ]%Q)).
Proof.
  apply (_parse_results_boxes_only Loader.new Loader.two_boxes [] "img.jpg"
           {| Loader.xyxy := Some [ floats [1; 2; 30; 40]; floats [5; 6; 70; 80] ]%Q;
              Loader.conf := None; Loader.cls := None |}
           [ floats [1; 2; 30; 40]; floats [5; 6; 70; 80] ]%Q).
  - reflexivity.
  - reflexivity.
  - reflexivity.
  - reflexivity.
  - repeat constructor.
Defined.

Lemma predict_413_iff_over_limit_witness :
  let file := Main.jpeg [xff; xd8; x00; x00; x00; x00; xff; xd9] in
  ∃ r st,
    Main.predict (H := posix_paths) Main.tiny_app "0f3a" file ∅ = Some (r, st) ∧
    (Main.status_of r = 413 ↔ 8 < Z.of_nat (length (Main.body file))).
Proof.
  apply (predict_413_iff_over_limit (H := posix_paths) Main.tiny_app "0f3a"
           (Main.jpeg [xff; xd8; x00; x00; x00; x00; xff; xd9]) ∅).
  - apply jpeg_is_allowed.
  - reflexivity.
  - reflexivity.
  - simpl. lia.
Defined.

Lemma predict_invalid_image_witness :
  let file := Main.jpeg [x47; x49; x46] in
  let path :=
    Main.upload_path (H := posix_paths) (Main.default_app Main.verify_example) "0f3a" file in
  ∃ st,
    Main.predict (H := posix_paths) (Main.default_app Main.verify_example) "0f3a" file ∅
    = Some (Main.HTTPException 400 "invalid image file", st) ∧
    Main.fs st !! path = None ∧
    Main.closed st = true.
Proof.
  apply (predict_invalid_image (H := posix_paths) (Main.default_app Main.verify_example) "0f3a"
           (Main.jpeg [x47; x49; x46]) ∅ Main.verify_example).
  - apply jpeg_is_allowed.
  - reflexivity.
  - reflexivity.
  - by vm_compute.
  - reflexivity.
  - reflexivity.
Defined.

Lemma predict_inference_error_witness :
  let file := Main.png Main.one_pixel_png in
  let path := Main.upload_path (H := posix_paths) Main.failing_app "0f3a" file in
  ∃ st,
    Main.predict (H := posix_paths) Main.failing_app "0f3a" file ∅
    = Some (Main.HTTPException 500 (exn_str (RuntimeError "CUDA out of memory")), st) ∧
    Main.fs st !! path = Some (Main.body file).
Proof.
  apply (predict_inference_error (H := posix_paths) Main.failing_app "0f3a"
           (Main.png Main.one_pixel_png) ∅
           (Loader.YolovXAdapter
              {| Loader.model := Some Loader.failing_detector;
                 Loader.mode := "inference";
                 Loader.names := ∅;
                 Loader.version := Some "8.0.0" |})).
  - apply png_is_allowed.
  - reflexivity.
  - reflexivity.
  - by vm_compute.
  - intros verify [= <-]. reflexivity.
  - reflexivity.
  - reflexivity.
Defined.

Lemma predict_non_finite_result_witness :
  let file := Main.png Main.one_pixel_png in
  let path := Main.upload_path (H := posix_paths) Main.nan_app "0f3a" file in
  ∃ detail st,
    Main.predict (H := posix_paths) Main.nan_app "0f3a" file ∅
    = Some (Main.HTTPException 500 detail, st) ∧
    Main.fs st !! path = Some (Main.body file).
Proof.
  eapply (predict_non_finite_result (H := posix_paths) Main.nan_app "0f3a"
            (Main.png Main.one_pixel_png) ∅).
  - apply png_is_allowed.
  - reflexivity.
  - reflexivity.
  - by vm_compute.
  - intros verify [= <-]. reflexivity.
  - reflexivity.
  - reflexivity.
  - reflexivity.
Defined.

(** The upload directory's name is taken by a file: the request is of an
    allowed type, ends with status 500, and its upload is left open. *)
Lemma predict_blocked_directory_leaves_upload_open :
  let file := Main.png Main.one_pixel_png in
  ∃ e st,
    Main.predict (H := posix_paths) Main.blocked_app "0f3a" file ∅
    = Some (Main.InternalServerError e, st) ∧
    Main.closed st = false ∧
    Main.log st = [].
Proof. by eexists _, _. Qed.

(** With that directory the application does not start. *)
Lemma lifespan_startup_blocked_directory :
  Main.lifespan_startup
    (λ name, if String.eqb name "UPLOAD_DIR" then Some "/etc/hostname" else None)
    Loader.env_ok Main.blocked_app
  = Raised (OSError "[Errno 17] File exists: '/etc/hostname'").
Proof. reflexivity. Qed.


(** In process and offline the command prints the stub's line and then the
    result, and exits with 0; with the standard output closed neither is
    printed and it exits with 3. *)
Lemma cmd_predict_inproc_offline :
  Cli.cmd_predict (H := posix_paths) Cli.offline (Cli.predict_args true)
  = (Returned 0,
     [ Cli.Printed "StubModel loaded (no weights)";
       Cli.Stdout (Model.StubModel_infer (H := posix_paths) "img.jpg") ],
     []) ∧
  Cli.cmd_predict (H := posix_paths) Cli.offline_closed_stdout (Cli.predict_args true)
  = (Returned 3,
     [ Cli.Stderr "inproc prediction failed: I/O operation on closed file." ],
     []).
Proof. split; reflexivity. Qed.

Lemma predict_inproc_stub_witness :
  Core.predict_inproc (H := posix_paths) (λ _, None) Loader.env_bad_weights "img.jpg" None
    (Some "ResNet") (Some "/models/yolov8n.pt")
  = Returned (Model.StubModel_infer (H := posix_paths) "img.jpg").
Proof.
  apply (predict_inproc_stub (H := posix_paths) (λ _, None) Loader.env_bad_weights "img.jpg"
           (Some "ResNet") (Some "/models/yolov8n.pt")).
  - reflexivity.
  - reflexivity.
Defined.
